(** * http-errors-es: the error construction and classification engine

    A shallow embedding of [src/index.ts] and the properties of its
    factory [createError], of the registry it populates at load time and
    of the predicate [isHttpError].

    The JavaScript store is modelled explicitly: objects live in a heap,
    carry a prototype link, an optional call behaviour and a list of own
    properties, and every function of the module is a computation in a
    state-and-exception monad over that heap.

    Scope of the model.
    - JavaScript numbers are modelled by integers ([Z]), the domain of
      status codes; non-integral numbers, NaN and the infinities are not
      represented.
    - Properties are data properties (no accessors, no frozen objects);
      the [stack] property written by [Error.captureStackTrace] is not
      represented.
    - The status registry ([statuses-es]) and the identifier deriver
      ([toidentifier]) are external packages; they are parameters of the
      development ([table], [toIdentifier]). *)

From Stdlib Require Import ZArith String Ascii List Bool Lia.

From stdpp Require Import base option list strings pretty.

Open Scope string_scope.

Open Scope list_scope.

Open Scope nat_scope.

(** ** Values and objects *)

Abbreviation loc := nat.

Inductive value : Type :=
  | VUndefined
  | VNull
  | VBool (b : bool)
  | VNum (n : Z)
  | VStr (s : string)
  | VSymbol
  | VBigInt (n : Z)
  | VRef (l : loc).

#[global] Instance value_eq_dec : EqDecision value.
Proof. solve_decision. Defined.

(** The behaviour of a callable object.  [FnClientError] and
    [FnServerError] are the closures built at lines 62 and 132, with the
    [className] and [code] they capture; [FnIsHttpError] is the closure of
    line 108 with the [HttpError] argument it captures. *)
Inductive fn : Type :=
  | FnHost
  | FnError
  | FnCreateError
  | FnHttpError
  | FnIsHttpError (HttpError : value)
  | FnClientError (className : string) (code : Z)
  | FnServerError (className : string) (code : Z).

Record prop : Type := Prop_ { p_value : value; p_enumerable : bool }.

Record obj : Type := Obj {
  o_proto : option loc;
  o_call : option fn;
  o_props : list (string * prop)
}.

Abbreviation heap := (list obj).

Record state : Type := State { st_heap : heap; st_advisories : list string }.

Inductive exn : Type := TypeError (message : string).

Inductive result (A : Type) : Type :=
  | Ok (a : A) (s : state)
  | Throw (e : exn)
  | Unmodelled.

Arguments Ok {A} a s.

Arguments Throw {A} e.

Arguments Unmodelled {A}.

(** ** Own properties *)

Fixpoint own_lookup (k : string) (ps : list (string * prop)) : option prop :=
  match ps with
  | [] => None
  | (k', p) :: ps' => if decide (k' = k) then Some p else own_lookup k ps'
  end.

(** [Object.defineProperty(o, k, {value, enumerable})]. *)
Fixpoint own_define (k : string) (p : prop) (ps : list (string * prop))
  : list (string * prop) :=
  match ps with
  | [] => [(k, p)]
  | (k', p') :: ps' =>
      if decide (k' = k) then (k', p) :: ps' else (k', p') :: own_define k p ps'
  end.

(** [o[k] = v]: an existing own property keeps its enumerability, a new
    one is enumerable. *)
Fixpoint own_assign (k : string) (v : value) (ps : list (string * prop))
  : list (string * prop) :=
  match ps with
  | [] => [(k, Prop_ v true)]
  | (k', p') :: ps' =>
      if decide (k' = k) then (k', Prop_ v (p_enumerable p')) :: ps'
      else (k', p') :: own_assign k v ps'
  end.

(** ** Prototype chains

    Objects are numbered so that a prototype is older (has a smaller
    location) than the objects that inherit from it; every acyclic
    prototype graph has such a numbering.  A link that breaks the order is
    read as the end of the chain, which makes the walk structural. *)

Fixpoint chain_from (fuel : nat) (h : heap) (l : loc) : list loc :=
  match fuel with
  | O => []
  | S fuel' =>
      match h !! l with
      | None => []
      | Some o =>
          l :: match o_proto o with
               | Some p => if decide (p < l) then chain_from fuel' h p else []
               | None => []
               end
      end
  end.

Definition chain (h : heap) (l : loc) : list loc := chain_from (S l) h l.

Definition props_of (h : heap) (l : loc) : list (string * prop) :=
  match h !! l with Some o => o_props o | None => [] end.

Fixpoint lookup_in (h : heap) (ls : list loc) (k : string) : value :=
  match ls with
  | [] => VUndefined
  | l :: ls' =>
      match own_lookup k (props_of h l) with
      | Some p => p_value p
      | None => lookup_in h ls' k
      end
  end.

(** [o[k]] on an object. *)
Definition get (h : heap) (l : loc) (k : string) : value :=
  lookup_in h (chain h l) k.

(** Property read on any value, as used on [err], [val] and [props]. *)
Definition get_v (h : heap) (v : value) (k : string) : value :=
  match v with VRef l => get h l k | _ => VUndefined end.

(** The keys visited by [for (key in o)]: along the chain, the first
    occurrence of a key decides, and it is visited when enumerable. *)
Fixpoint visible_keys (ps : list (string * prop)) (seen : list string)
  : list string :=
  match ps with
  | [] => []
  | (k, p) :: ps' =>
      if bool_decide (k ∈ seen) then visible_keys ps' seen
      else if p_enumerable p then k :: visible_keys ps' (k :: seen)
      else visible_keys ps' (k :: seen)
  end.

Definition forin_keys (h : heap) (v : value) : list string :=
  match v with
  | VRef l => visible_keys (flat_map (props_of h) (chain h l)) []
  | _ => []
  end.

(** ** Operators *)

Definition typeof (h : heap) (v : value) : string :=
  match v with
  | VUndefined => "undefined"
  | VNull => "object"
  | VBool _ => "boolean"
  | VNum _ => "number"
  | VStr _ => "string"
  | VSymbol => "symbol"
  | VBigInt _ => "bigint"
  | VRef l =>
      match h !! l ≫= o_call with
      | Some _ => "function"
      | None => "object"
      end
  end.

Definition nullish (v : value) : bool :=
  match v with VUndefined | VNull => true | _ => false end.

Definition truthy (v : value) : bool :=
  match v with
  | VUndefined | VNull => false
  | VBool b => b
  | VNum n => negb (n =? 0)%Z
  | VStr s => negb (String.eqb s "")
  | VBigInt n => negb (n =? 0)%Z
  | VSymbol | VRef _ => true
  end.

(** [a === b]. *)
Definition strict_eq (a b : value) : bool := bool_decide (a = b).

(** [a ?? b]. *)
Definition coalesce (a b : value) : value := if nullish a then b else a.

(** [a || b]. *)
Definition or_else (a b : value) : value := if truthy a then a else b.

(** The walk of [OrdinaryHasInstance]: is [p] a proper ancestor of [l]? *)
Definition has_ancestor (h : heap) (l : loc) (p : loc) : bool :=
  bool_decide (p ∈ tail (chain h l)).

(** ** Host objects present before the module runs *)

Definition ObjectPrototype : loc := 0.

Definition FunctionPrototype : loc := 1.

Definition ErrorPrototype : loc := 2.

Definition Error_ : loc := 3.

Definition module_exports : loc := 4.

(** [v instanceof Error], with the host's own [Error.prototype]. *)
Definition is_error (h : heap) (v : value) : bool :=
  match v with
  | VRef l => has_ancestor h l ErrorPrototype
  | _ => false
  end.

Definition hidden (v : value) : prop := Prop_ v false.

Definition shown (v : value) : prop := Prop_ v true.

Definition host_heap : heap :=
  [ Obj None None [];
    Obj (Some ObjectPrototype) (Some FnHost) [];
    Obj (Some ObjectPrototype) None
        [("constructor", hidden (VRef Error_));
         ("name", hidden (VStr "Error"));
         ("message", hidden (VStr ""))];
    Obj (Some FunctionPrototype) (Some FnError)
        [("prototype", hidden (VRef ErrorPrototype));
         ("name", hidden (VStr "Error"))];
    Obj (Some ObjectPrototype) None [] ].

Definition host_state : state := State host_heap [].

(** ** The monad of the module's computations *)

Definition M (A : Type) : Type := state → result A.

Definition ret {A} (a : A) : M A := λ s, Ok a s.

Definition bind {A B} (m : M A) (f : A → M B) : M B :=
  λ s, match m s with
       | Ok a s' => f a s'
       | Throw e => Throw e
       | Unmodelled => Unmodelled
       end.

Definition throw {A} (e : exn) : M A := λ _, Throw e.

Notation "'let*' x ':=' m 'in' k" := (bind m (λ x, k))
  (at level 10, x name, m at level 100, k at level 200,
   format "'[v' 'let*'  x  :=  m  'in'  '/' k ']'").

Notation "m ;; k" := (bind m (λ _, k))
  (at level 100, right associativity).

Definition alloc (o : obj) : M loc :=
  λ s, Ok (List.length (st_heap s)) (State (st_heap s ++ [o]) (st_advisories s)).

Definition update (l : loc) (f : obj → obj) : M unit :=
  λ s, Ok tt (State (alter f l (st_heap s)) (st_advisories s)).

Definition read (l : loc) (k : string) : M value :=
  λ s, Ok (get (st_heap s) l k) s.

Definition read_v (v : value) (k : string) : M value :=
  λ s, Ok (get_v (st_heap s) v k) s.

(** The heap after [l[k] = v]. *)
Definition write (l : loc) (k : string) (v : value) (h : list obj) : list obj :=
  alter (λ o, Obj (o_proto o) (o_call o) (own_assign k v (o_props o))) l h.

Definition assign (l : loc) (k : string) (v : value) : M unit :=
  λ s, Ok tt (State (write l k v (st_heap s)) (st_advisories s)).

Definition define (l : loc) (k : string) (p : prop) : M unit :=
  update l (λ o, Obj (o_proto o) (o_call o) (own_define k p (o_props o))).

Definition set_proto (l : loc) (p : option loc) : M unit :=
  update l (λ o, Obj p (o_call o) (o_props o)).

(** [target[k] = v] in strict mode. *)
Definition assign_v (target : value) (k : string) (v : value) : M unit :=
  match target with
  | VRef l => assign l k v
  | VUndefined | VNull =>
      throw (TypeError "Cannot set properties of undefined or null")
  | _ => throw (TypeError "Cannot create property on a primitive value")
  end.

(** [deprecate(message)]: the advisory channel records the message. *)
Definition deprecate (message : string) : M unit :=
  λ s, Ok tt (State (st_heap s) (st_advisories s ++ [message])).

(** [v instanceof c]. *)
Definition instanceof (v c : value) : M bool :=
  λ s,
    match c with
    | VRef f =>
        match st_heap s !! f ≫= o_call with
        | None =>
            Throw (TypeError "Right-hand side of 'instanceof' is not callable")
        | Some _ =>
            match v with
            | VRef l =>
                match get (st_heap s) f "prototype" with
                | VRef p => Ok (has_ancestor (st_heap s) l p) s
                | _ =>
                    Throw (TypeError
                      "Function has non-object prototype in instanceof check")
                end
            | _ => Ok false s
            end
        end
    | _ => Throw (TypeError "Right-hand side of 'instanceof' is not callable")
    end.

(** A function object comes with its own [prototype] object. *)
Definition make_function (name : string) (f : fn) : M loc :=
  let* l := alloc (Obj (Some FunctionPrototype) (Some f)
                      [("name", hidden (VStr name))]) in
  let* p := alloc (Obj (Some ObjectPrototype) None
                      [("constructor", hidden (VRef l))]) in
  define l "prototype" (hidden (VRef p)) ;;
  ret l.

(** [inherits(ctor, superCtor)] of the package [inherits]. *)
Definition inherits (ctor : loc) (superCtor : value) : M unit :=
  match superCtor with
  | VRef _ =>
      let* sp := read_v superCtor "prototype" in
      match sp with
      | VRef sp' =>
          define ctor "super_" (hidden superCtor) ;;
          let* p := read ctor "prototype" in
          match p with
          | VRef p' => set_proto p' (Some sp')
          | _ => throw (TypeError "The constructor has no prototype")
          end
      | _ => throw (TypeError "The super constructor has no prototype")
      end
  | _ => throw (TypeError "The super constructor must be a function")
  end.

(** [new Error(message)]: the message is an own property unless the
    argument is [undefined]. *)
Definition native_error (message : value) : obj :=
  Obj (Some ErrorPrototype) None
    match message with
    | VUndefined => []
    | _ => [("message", hidden message)]
    end.

Definition new_Error (message : value) : M loc :=
  alloc (native_error message).

(** [setPrototypeOf(o, proto)] of the package [setprototypeof]. *)
Definition setPrototypeOf (l : loc) (proto : value) : M unit :=
  match proto with
  | VRef p => set_proto l (Some p)
  | VNull => set_proto l None
  | _ => throw (TypeError "Object prototype may only be an Object or null")
  end.

(** ** Numbers and strings *)

(** [String(n)] for an integer. *)
Definition String_ (n : Z) : string := pretty n.

(** [s.charAt(0)]. *)
Definition charAt0 (s : string) : string :=
  match s with
  | EmptyString => ""
  | String a _ => String a ""
  end.

Definition digit_of (a : ascii) : option Z :=
  let n := nat_of_ascii a in
  if (48 <=? n)%nat && (n <=? 57)%nat then Some (Z.of_nat (n - 48)) else None.

Fixpoint digits_value (s : string) (acc : Z) : option Z :=
  match s with
  | EmptyString => Some acc
  | String a s' =>
      match digit_of a with
      | Some d => digits_value s' (10 * acc + d)%Z
      | None => None
      end
  end.

(** [Number(s)] on signed decimal numerals, [None] standing for NaN; the
    zero of ["-00"] is the integer 0. *)
Definition Number_ (s : string) : option Z :=
  match s with
  | EmptyString => Some 0%Z
  | String "-" EmptyString => None
  | String "-" s' => Z.opp <$> digits_value s' 0
  | _ => digits_value s 0
  end.

(** [s.slice(-n)]. *)
Definition slice_last (n : nat) (s : string) : string :=
  substring (String.length s - n) n s.

(** Line 37.  [Number] never yields NaN here, see [codeClass_number]. *)
Definition codeClass (status : Z) : Z :=
  default 0%Z (Number_ (charAt0 (String_ status) +:+ "00")).

(** Line 220. *)
Definition toClassName (name : string) : string :=
  if negb (String.eqb (slice_last 5 name) "Error")
  then name +:+ "Error"
  else name.

(** ** The module *)

Section Module.

(** [statuses.message] as the list of its entries, and [toIdentifier]. *)
Variable table : list (Z * string).

Variable toIdentifier : string → string.

Definition statuses_codes : list Z := map fst table.

Fixpoint phrase_in (t : list (Z * string)) (code : Z) : option string :=
  match t with
  | [] => None
  | (c, s) :: t' => if decide (c = code) then Some s else phrase_in t' code
  end.

(** [statuses.message[code]]. *)
Definition statuses_message (code : Z) : value :=
  match phrase_in table code with
  | Some s => VStr s
  | None => VUndefined
  end.

(** [String(status) in statuses.message]. *)
Definition known (status : Z) : bool := bool_decide (status ∈ statuses_codes).

(** Line 45. *)
Definition createHttpErrorConstructor : M value :=
  let* HttpError := make_function "HttpError" FnHttpError in
  inherits HttpError (VRef Error_) ;;
  ret (VRef HttpError).

(** Line 178; the properties of the model are all configurable. *)
Definition nameFunc (func : loc) (name : string) : M unit :=
  λ s,
    match own_lookup "name" (props_of (st_heap s) func) with
    | Some desc => define func "name" (Prop_ (VStr name) (p_enumerable desc)) s
    | None => Ok tt s
    end.

(** Line 62, the body of [ClientError]; [self] is the function object. *)
Definition ClientError (self : loc) (className : string) (code : Z)
    (message : value) : M value :=
  let msg := if negb (nullish message) then message
             else statuses_message code in
  let* err := new_Error msg in
  let* proto := read self "prototype" in
  setPrototypeOf err proto ;;
  define err "message" (shown msg) ;;
  define err "name" (hidden (VStr className)) ;;
  ret (VRef err).

(** Line 59. *)
Definition createClientErrorConstructor (HttpError : value) (name : string)
    (code : Z) : M value :=
  let className := toClassName name in
  let* ClientError := make_function "ClientError"
                        (FnClientError className code) in
  inherits ClientError HttpError ;;
  nameFunc ClientError className ;;
  let* proto := read ClientError "prototype" in
  assign_v proto "status" (VNum code) ;;
  assign_v proto "statusCode" (VNum code) ;;
  assign_v proto "expose" (VBool true) ;;
  ret (VRef ClientError).

(** Line 132, the body of [ServerError]. *)
Definition ServerError (self : loc) (className : string) (code : Z)
    (message : value) : M value :=
  let msg := if negb (nullish message) then message
             else statuses_message code in
  let* err := new_Error msg in
  let* proto := read self "prototype" in
  setPrototypeOf err proto ;;
  define err "message" (shown msg) ;;
  define err "name" (hidden (VStr className)) ;;
  ret (VRef err).

(** Line 129. *)
Definition createServerErrorConstructor (HttpError : value) (name : string)
    (code : Z) : M value :=
  let className := toClassName name in
  let* ServerError := make_function "ServerError"
                        (FnServerError className code) in
  inherits ServerError HttpError ;;
  nameFunc ServerError className ;;
  let* proto := read ServerError "prototype" in
  assign_v proto "status" (VNum code) ;;
  assign_v proto "statusCode" (VNum code) ;;
  assign_v proto "expose" (VBool false) ;;
  ret (VRef ServerError).

(** Line 108, the body of the closure [isHttpError]. *)
Definition isHttpError (HttpError : value) (val : value) : M bool :=
  λ s,
    if nullish val || negb (String.eqb (typeof (st_heap s) val) "object")
    then Ok false s
    else
      (let* inst := instanceof val HttpError in
       if inst then ret true
       else
         λ s',
           let h := st_heap s' in
           Ok (is_error h val
               && String.eqb (typeof h (get_v h val "expose")) "boolean"
               && String.eqb (typeof h (get_v h val "statusCode")) "number"
               && strict_eq (get_v h val "status") (get_v h val "statusCode"))
              s') s.

(** Line 107. *)
Definition createIsHttpErrorFunction (HttpError : value) : M value :=
  let* f := make_function "isHttpError" (FnIsHttpError HttpError) in
  ret (VRef f).

(** Line 193, the callback [forEachCode]. *)
Definition forEachCode (exports : loc) (HttpError : value) (code : Z)
  : M unit :=
  match statuses_message code with
  | VStr phrase =>
      let name := toIdentifier phrase in
      let* CodeError :=
        if (codeClass code =? 400)%Z
        then createClientErrorConstructor HttpError name code
        else if (codeClass code =? 500)%Z
        then createServerErrorConstructor HttpError name code
        else ret VUndefined in
      if negb (nullish CodeError)
      then assign exports (String_ code) CodeError ;;
           assign exports name CodeError
      else ret tt
  | _ => throw (TypeError "toIdentifier: the phrase is not a string")
  end.

(** Line 192. *)
Fixpoint populateConstructorExports (exports : loc) (codes : list Z)
    (HttpError : value) : M unit :=
  match codes with
  | [] => ret tt
  | code :: codes' =>
      forEachCode exports HttpError code ;;
      populateConstructorExports exports codes' HttpError
  end.

(** [new callee(message)]. *)
Definition construct (callee : value) (message : value) : M value :=
  match callee with
  | VRef f =>
      λ s,
        match st_heap s !! f ≫= o_call with
        | Some FnError => (let* e := new_Error message in ret (VRef e)) s
        | Some FnHttpError =>
            Throw (TypeError "cannot construct abstract class")
        | Some (FnClientError className code) =>
            ClientError f className code message s
        | Some (FnServerError className code) =>
            ServerError f className code message s
        | Some _ => Unmodelled
        | None => Throw (TypeError "HttpError is not a constructor")
        end
  | _ => throw (TypeError "HttpError is not a constructor")
  end.

(** The variables of [createError] after its argument loop. *)
Record vars : Type := Vars {
  v_err : value;
  v_msg : value;
  v_status : value;
  v_props : value
}.

Definition unsupported (i : nat) (type : string) : exn :=
  TypeError ("argument #" +:+ pretty (i + 1)%nat
             +:+ " unsupported type " +:+ type).

(** Lines 244-260, from index [i] on. *)
Fixpoint resolve_args (h : heap) (i : nat) (args : list value) (vs : vars)
  : exn + vars :=
  match args with
  | [] => inr vs
  | arg :: args' =>
      let type := typeof h arg in
      if String.eqb type "object" && is_error h arg then
        resolve_args h (S i) args'
          (Vars arg (v_msg vs)
             (coalesce (get_v h arg "status")
                (coalesce (get_v h arg "statusCode") (v_status vs)))
             (v_props vs))
      else if String.eqb type "number" && (i =? 0)%nat then
        resolve_args h (S i) args'
          (Vars (v_err vs) (v_msg vs) arg (v_props vs))
      else if String.eqb type "string" then
        resolve_args h (S i) args'
          (Vars (v_err vs) arg (v_status vs) (v_props vs))
      else if String.eqb type "object" then
        resolve_args h (S i) args'
          (Vars (v_err vs) (v_msg vs) (v_status vs) arg)
      else inl (unsupported i type)
  end.

Definition out_of_range (status : Z) : bool :=
  (status <? 400)%Z || (600 <=? status)%Z.

Definition advisory : string :=
  "non-error status code; use only 4xx or 5xx status codes".

(** Lines 262-264. *)
Definition advise (status : value) : M unit :=
  match status with
  | VNum n => if out_of_range n then deprecate advisory else ret tt
  | _ => ret tt
  end.

(** Lines 266-269. *)
Definition validate (status : value) : Z :=
  match status with
  | VNum n => if negb (known n) && out_of_range n then 500%Z else n
  | _ => 500%Z
  end.

(** Lines 290-295, over the keys that [for-in] visits. *)
Fixpoint copy_keys (err props : value) (keys : list string) : M unit :=
  match keys with
  | [] => ret tt
  | key :: keys' =>
      (if negb (String.eqb key "status") && negb (String.eqb key "statusCode")
       then let* v := read_v props key in assign_v err key v
       else ret tt) ;;
      copy_keys err props keys'
  end.

(** Lines 235-260: the declarations and the argument loop. *)
Definition resolve (args : list value) : M vars :=
  let* props0 := alloc (Obj (Some ObjectPrototype) None []) in
  λ s, match resolve_args (st_heap s) 0 args
               (Vars VUndefined VUndefined (VNum 500) (VRef props0)) with
       | inr vs => Ok vs s
       | inl e => Throw e
       end.

(** Line 273: [createError[status] || createError[codeClass(status)]]. *)
Definition select_kind (self : loc) (status : Z) : M value :=
  let* exact := read self (String_ status) in
  if truthy exact then ret exact
  else read self (String_ (codeClass status)).

(** Lines 276-282. *)
Definition obtain_error (vs : vars) (status : Z) (HttpError : value)
  : M value :=
  if nullish (v_err vs) then
    if negb (nullish HttpError) then construct HttpError (v_msg vs)
    else let* e := new_Error (coalesce (v_msg vs) (statuses_message status)) in
         ret (VRef e)
  else ret (v_err vs).

(** Line 284, the condition. *)
Definition is_generic (err : value) (status : Z) (HttpError : value)
  : M bool :=
  if negb (truthy HttpError) then ret true
  else let* inst := instanceof err HttpError in
       if negb inst then ret true
       else let* s := read_v err "status" in
            ret (negb (strict_eq s (VNum status))).

(** Lines 286-287. *)
Definition add_properties (err : value) (status : Z) : M unit :=
  assign_v err "expose" (VBool (status <? 500)%Z) ;;
  assign_v err "statusCode" (VNum status) ;;
  assign_v err "status" (VNum status).

(** Lines 290-295. *)
Definition copy_props (err props : value) : M unit :=
  let* keys := (λ s, Ok (forin_keys (st_heap s) props) s) in
  copy_keys err props keys.

(** Lines 262-297, from the variables the loop leaves; [self] is the
    function object [createError]. *)
Definition build (self : loc) (vs : vars) : M value :=
  advise (v_status vs) ;;
  let status := validate (v_status vs) in
  let* HttpError := select_kind self status in
  let* err := obtain_error vs status HttpError in
  let* generic := is_generic err status HttpError in
  (if generic : bool then add_properties err status else ret tt) ;;
  copy_props err (v_props vs) ;;
  ret err.

(** Line 233. *)
Definition createError (self : loc) (args : list value) : M value :=
  let* vs := resolve args in
  build self vs.

(** [createError.isHttpError(val)], a call of the function stored in the
    property. *)
Definition call_isHttpError (self : loc) (val : value) : M bool :=
  let* f := read self "isHttpError" in
  λ s,
    match f with
    | VRef l =>
        match st_heap s !! l ≫= o_call with
        | Some (FnIsHttpError HttpError) => isHttpError HttpError val s
        | Some _ => Unmodelled
        | None => Throw (TypeError "createError.isHttpError is not a function")
        end
    | _ => Throw (TypeError "createError.isHttpError is not a function")
    end.

(** Lines 305-311, run as a CommonJS module: [module.exports] is the
    object [module_exports], and the declaration of [createError] is
    hoisted. *)
Definition module_body : M loc :=
  let* createError_ := make_function "createError" FnCreateError in
  let* HttpError := createHttpErrorConstructor in
  assign createError_ "HttpError" HttpError ;;
  let* exported := read module_exports "HttpError" in
  let* isHttpError_ := createIsHttpErrorFunction exported in
  assign createError_ "isHttpError" isHttpError_ ;;
  let* marker := read createError_ "HttpError" in
  populateConstructorExports createError_ statuses_codes marker ;;
  assign module_exports "default" (VRef createError_) ;;
  ret createError_.

End Module.

(** ** A reference instance of the external packages

    The table of [statuses-es] and the algorithm of [toidentifier], for
    running the module on concrete calls. *)

Module Sample.

Definition table : list (Z * string) :=
  [ (100, "Continue"); (101, "Switching Protocols"); (102, "Processing");
    (103, "Early Hints"); (200, "OK"); (201, "Created"); (202, "Accepted");
    (203, "Non-Authoritative Information"); (204, "No Content");
    (205, "Reset Content"); (206, "Partial Content"); (207, "Multi-Status");
    (208, "Already Reported"); (226, "IM Used"); (300, "Multiple Choices");
    (301, "Moved Permanently"); (302, "Found"); (303, "See Other");
    (304, "Not Modified"); (305, "Use Proxy"); (307, "Temporary Redirect");
    (308, "Permanent Redirect"); (400, "Bad Request"); (401, "Unauthorized");
    (402, "Payment Required"); (403, "Forbidden"); (404, "Not Found");
    (405, "Method Not Allowed"); (406, "Not Acceptable");
    (407, "Proxy Authentication Required"); (408, "Request Timeout");
    (409, "Conflict"); (410, "Gone"); (411, "Length Required");
    (412, "Precondition Failed"); (413, "Payload Too Large");
    (414, "URI Too Long"); (415, "Unsupported Media Type");
    (416, "Range Not Satisfiable"); (417, "Expectation Failed");
    (418, "I'm a Teapot"); (421, "Misdirected Request");
    (422, "Unprocessable Entity"); (423, "Locked");
    (424, "Failed Dependency"); (425, "Too Early");
    (426, "Upgrade Required"); (428, "Precondition Required");
    (429, "Too Many Requests"); (431, "Request Header Fields Too Large");
    (451, "Unavailable For Legal Reasons"); (500, "Internal Server Error");
    (501, "Not Implemented"); (502, "Bad Gateway");
    (503, "Service Unavailable"); (504, "Gateway Timeout");
    (505, "HTTP Version Not Supported"); (506, "Variant Also Negotiates");
    (507, "Insufficient Storage"); (508, "Loop Detected");
    (509, "Bandwidth Limit Exceeded"); (510, "Not Extended");
    (511, "Network Authentication Required") ]%Z.

Definition is_lower (a : ascii) : bool :=
  (97 <=? nat_of_ascii a)%nat && (nat_of_ascii a <=? 122)%nat.

Definition is_upper (a : ascii) : bool :=
  (65 <=? nat_of_ascii a)%nat && (nat_of_ascii a <=? 90)%nat.

Definition is_digit (a : ascii) : bool :=
  (48 <=? nat_of_ascii a)%nat && (nat_of_ascii a <=? 57)%nat.

Definition toUpperCase (a : ascii) : ascii :=
  if is_lower a then ascii_of_nat (nat_of_ascii a - 32) else a.

(** The characters kept by [replace(/[^ _0-9a-z]/gi, '')]. *)
Definition kept (a : ascii) : bool :=
  is_lower a || is_upper a || is_digit a
  || Ascii.eqb a "_" || Ascii.eqb a " ".

(** [split(' ')], capitalise each token, [join('')]. *)
Fixpoint capitalise (start : bool) (s : string) : string :=
  match s with
  | EmptyString => ""
  | String a s' =>
      if Ascii.eqb a " " then capitalise true s'
      else String (if start then toUpperCase a else a) (capitalise false s')
  end.

Fixpoint strip (s : string) : string :=
  match s with
  | EmptyString => ""
  | String a s' => if kept a then String a (strip s') else strip s'
  end.

Definition toIdentifier (str : string) : string :=
  strip (capitalise true str).

(** The state in which the module has been loaded, and the function
    object [createError]. *)
Definition loaded : result loc := module_body table toIdentifier host_state.

Definition createError_ : loc :=
  match loaded with Ok l _ => l | _ => 0 end.

Definition ready : state :=
  match loaded with Ok _ s => s | _ => host_state end.

(** [createError(...args)] in a given state. *)
Definition call (s : state) (args : list value) : result value :=
  createError table createError_ args s.

(** [createError.isHttpError(val)] in a given state. *)
Definition test (s : state) (val : value) : result bool :=
  call_isHttpError createError_ val s.

(** A property of the value that a call returns, read in the state that
    the call leaves. *)
Definition field (r : result value) (k : string) : option value :=
  match r with
  | Ok (VRef l) s => Some (get (st_heap s) l k)
  | _ => None
  end.

(** The state of a caller that has created the objects [objs] after the
    module was loaded. *)
Definition with_objects (objs : list obj) : state :=
  State (st_heap ready ++ objs) [].

(** [{k1: v1, ...}]. *)
Definition literal (entries : list (string * value)) : obj :=
  Obj (Some ObjectPrototype) None
    (map (λ '(k, v), (k, shown v)) entries).

(** [createError.isHttpError] applied to the value that a call
    returns. *)
Definition then_test (r : result value) : result bool :=
  match r with
  | Ok v s => test s v
  | Throw e => Throw e
  | Unmodelled => Unmodelled
  end.


End Sample.

(** * Notions used in the properties *)

(** ** Numerals *)

(** A numeral begins with a digit or with the sign. *)
Definition numeral_head (s : string) : bool :=
  match s with
  | EmptyString => false
  | String a _ =>
      match digit_of a with
      | Some _ => true
      | None => Ascii.eqb a "-"
      end
  end.

(** The status class of a code between 400 and 599. *)
Definition class_of_range (c : Z) : Z := if (c <? 500)%Z then 400%Z else 500%Z.

(** ** Writes to one object

    [same_but e W h h'] : the heap [h'] is [h] except for own properties
    of the object [e] whose keys satisfy [W]. *)

Definition same_but (e : loc) (W : string → Prop) (h h' : list obj) : Prop :=
  List.length h' = List.length h ∧
  ∀ l o, h !! l = Some o →
    ∃ o', h' !! l = Some o' ∧ o_proto o' = o_proto o ∧ o_call o' = o_call o ∧
      (l ≠ e → o' = o) ∧
      ∀ k, ¬ W k → own_lookup k (o_props o') = own_lookup k (o_props o).

(** ** The objects of the module

    The function [createError], the abstract constructor [HttpError]
    and its prototype are the objects that the module creates first. *)

Definition createError_obj : loc := 5.

Definition HttpError_obj : loc := 7.

Definition HttpError_prototype : loc := 8.

Definition kind_fn (client : bool) (className : string) (code : Z) : fn :=
  if client then FnClientError className code
  else FnServerError className code.

(** The constructor of a kind and its prototype, as
    [createClientErrorConstructor] and [createServerErrorConstructor]
    leave them. *)
Definition kind_function (client : bool) (className : string) (code : Z)
    (p : loc) : obj :=
  Obj (Some FunctionPrototype) (Some (kind_fn client className code))
    [("name", hidden (VStr className));
     ("prototype", hidden (VRef p));
     ("super_", hidden (VRef HttpError_obj))].

Definition kind_prototype (client : bool) (code : Z) (f : loc) : obj :=
  Obj (Some HttpError_prototype) None
    [("constructor", hidden (VRef f));
     ("status", shown (VNum code));
     ("statusCode", shown (VNum code));
     ("expose", shown (VBool client))].

(** The objects every later step relies on. *)
Record base_ok (h : list obj) : Prop := {
  base_Object : h !! ObjectPrototype = Some (Obj None None []);
  base_Function :
    h !! FunctionPrototype = Some (Obj (Some ObjectPrototype) (Some FnHost) []);
  base_Error :
    h !! ErrorPrototype =
      Some (Obj (Some ObjectPrototype) None
              [("constructor", hidden (VRef Error_));
               ("name", hidden (VStr "Error"));
               ("message", hidden (VStr ""))]);
  base_HttpError :
    h !! HttpError_obj =
      Some (Obj (Some FunctionPrototype) (Some FnHttpError)
              [("name", hidden (VStr "HttpError"));
               ("prototype", hidden (VRef HttpError_prototype));
               ("super_", hidden (VRef Error_))]);
  base_HttpError_prototype :
    h !! HttpError_prototype =
      Some (Obj (Some ErrorPrototype) None
              [("constructor", hidden (VRef HttpError_obj))])
}.

(** ** The registry after the module has run *)

Section Registry.

Context (table : list (Z * string)) (toIdentifier : string → string).

(** The codes for which [populateConstructorExports] builds a kind. *)
Definition has_kind (code : Z) : bool :=
  bool_decide (code ∈ statuses_codes table)
  && ((codeClass code =? 400)%Z || (codeClass code =? 500)%Z).

(** [v] is the constructor that the module built for [code]. *)
Definition is_kind (h : list obj) (v : value) (code : Z) : Prop :=
  ∃ f phrase,
    v = VRef f ∧ HttpError_prototype < f ∧
    phrase_in table code = Some phrase ∧
    ((codeClass code =? 400)%Z || (codeClass code =? 500)%Z) = true ∧
    h !! f = Some (kind_function (codeClass code =? 400)%Z
                     (toClassName (toIdentifier phrase)) code (S f)) ∧
    h !! S f = Some (kind_prototype (codeClass code =? 400)%Z code f).

(** The identifiers of the kinds are not numerals, and differ from code
    to code: what the registry needs for its keys to stay apart. *)
Definition names_not_numerals : Prop :=
  ∀ code phrase,
    has_kind code = true → phrase_in table code = Some phrase →
    numeral_head (toIdentifier phrase) = false.

Definition names_distinct : Prop :=
  ∀ c c' p p',
    has_kind c = true → has_kind c' = true →
    phrase_in table c = Some p → phrase_in table c' = Some p' →
    toIdentifier p = toIdentifier p' → c = c'.

(** What the loop of [populateConstructorExports] maintains, [seen]
    being the codes visited so far. *)
Record populated (seen : list Z) (h : list obj) : Prop := {
  pop_base : base_ok h;
  pop_self : ∃ ps,
    h !! createError_obj
    = Some (Obj (Some FunctionPrototype) (Some FnCreateError) ps);
  pop_numeral : ∀ k,
    numeral_head k = true →
    get h createError_obj k = VUndefined
    ∨ ∃ code, is_kind h (get h createError_obj k) code;
  pop_code : names_not_numerals → ∀ n,
    if has_kind n && bool_decide (n ∈ seen)
    then is_kind h (get h createError_obj (String_ n)) n
    else get h createError_obj (String_ n) = VUndefined;
  pop_name : names_not_numerals → names_distinct → ∀ n phrase,
    has_kind n = true → n ∈ seen → phrase_in table n = Some phrase →
    get h createError_obj (toIdentifier phrase)
    = get h createError_obj (String_ n)
}.

(** ** States in which the module is loaded

    The module has run, and since then only objects of the caller have
    been added to the heap. *)
Definition loaded_in (s : state) : Prop :=
  ∃ s0 ext,
    module_body table toIdentifier host_state = Ok createError_obj s0
    ∧ st_heap s = st_heap s0 ++ ext.

(** ** The phases of [build] *)

(** The error that [new] of a kind's constructor returns. *)
Definition kind_error (f : loc) (className : string) (message : value) : obj :=
  Obj (Some (S f)) None
    [("message", shown message); ("name", hidden (VStr className))].

(** The value of [HttpError] after line 273. *)
Definition kind_selected (h : list obj) (status : Z) : value :=
  or_else (get h createError_obj (String_ status))
    (get h createError_obj (String_ (codeClass status))).

(** The value of the condition at line 284. *)
Definition generic_of (h : list obj) (e : loc) (status : Z) (K : value) : bool :=
  match K with
  | VRef f =>
      negb (has_ancestor h e (S f))
      || negb (strict_eq (get h e "status") (VNum status))
  | _ => true
  end.

(** The heap after lines 286-287, and the keys written there. *)
Definition added (e : loc) (status : Z) (h : list obj) : list obj :=
  write e "status" (VNum status)
    (write e "statusCode" (VNum status)
       (write e "expose" (VBool (status <? 500)%Z) h)).

Definition written (k : string) : Prop :=
  k = "status" ∨ k = "statusCode" ∨ k = "expose".

(** The keys that lines 290-295 write, [keys] being those of [props]. *)
Definition copied (keys : list string) (k : string) : Prop :=
  k ∈ keys ∧ k ≠ "status" ∧ k ≠ "statusCode".

(** What lines 262-264 send to the advisory channel. *)
Definition advisories_of (status : value) : list string :=
  match status with
  | VNum n => if out_of_range n then [advisory] else []
  | _ => []
  end.

(** The error value that lines 276-282 leave in [err], and the heap
    then: an adopted error, a new error of the selected kind, or a new
    generic error. *)
Inductive obtained (h : list obj) (vs : vars) (status : Z) (K : value)
  : loc → list obj → Prop :=
  | obtained_adopted e :
      v_err vs = VRef e → is_Some (h !! e) →
      obtained h vs status K e h
  | obtained_kind f code phrase :
      v_err vs = VUndefined → K = VRef f → is_kind h K code →
      phrase_in table code = Some phrase →
      obtained h vs status K (List.length h)
        (h ++ [kind_error f (toClassName (toIdentifier phrase))
                 (if negb (nullish (v_msg vs)) then v_msg vs else VStr phrase)])
  | obtained_generic :
      v_err vs = VUndefined → K = VUndefined →
      obtained h vs status K (List.length h)
        (h ++ [native_error
                  (coalesce (v_msg vs) (statuses_message table status))]).

(** The heap after lines 284-288. *)
Definition normalised (h : list obj) (e : loc) (status : Z) (K : value)
  : list obj :=
  if generic_of h e status K then added e status h else h.

(** ** Arguments *)

(** A value of the state: a reference points into the heap. *)
Definition closed (h : list obj) (v : value) : Prop :=
  match v with
  | VRef l => l < List.length h
  | _ => True
  end.

(** [{}], the first value of [props]. *)
Definition empty_object : obj := Obj (Some ObjectPrototype) None [].

(** The variables of [createError] when the loop starts, in a heap [h]
    to which the object of [props] is about to be added. *)
Definition first_vars (h : list obj) : vars :=
  Vars VUndefined VUndefined (VNum 500) (VRef (List.length h)).

(** [err] is unset or an object of the heap. *)
Definition err_ok (h : list obj) (vs : vars) : Prop :=
  v_err vs = VUndefined ∨ ∃ e, v_err vs = VRef e ∧ is_Some (h !! e).

(** An error value: an object, not a function, that inherits from
    [Error.prototype]. *)
Definition error_value (h : list obj) (v : value) : Prop :=
  typeof h v = "object" ∧ is_error h v = true.



Definition is_string (v : value) : bool :=
  match v with VStr _ => true | _ => false end.

(** An object argument that is not an error value. *)
Definition plain (h : list obj) (v : value) : Prop :=
  typeof h v = "object" ∧ is_error h v = false.

(** ** Names that the module uses itself *)

(** The identifiers of the kinds leave alone the two names under which
    lines 305 and 306 store the marker and the predicate. *)
Definition names_unreserved : Prop :=
  ∀ code phrase,
    has_kind code = true → phrase_in table code = Some phrase →
    toIdentifier phrase ≠ "HttpError" ∧ toIdentifier phrase ≠ "isHttpError".

(** * Properties of the store *)

(** ** Own properties *)

Lemma own_lookup_assign_eq k v ps :
  p_value <$> own_lookup k (own_assign k v ps) = Some v.
Proof.
  induction ps as [|[k' p'] ps IH]; simpl.
  - by rewrite decide_True.
  - destruct (decide (k' = k)) as [->|Hne]; simpl.
    + by rewrite decide_True.
    + by rewrite decide_False.
Qed.

Lemma own_lookup_assign_ne k k' v ps :
  k ≠ k' → own_lookup k' (own_assign k v ps) = own_lookup k' ps.
Proof.
  intros Hne. induction ps as [|[k0 p0] ps IH]; simpl.
  - by rewrite decide_False.
  - destruct (decide (k0 = k)) as [->|Hk]; simpl.
    + by rewrite !decide_False.
    + destruct (decide (k0 = k')); [done|apply IH].
Qed.

Lemma own_lookup_define_eq k p ps : own_lookup k (own_define k p ps) = Some p.
Proof.
  induction ps as [|[k' p'] ps IH]; simpl.
  - by rewrite decide_True.
  - destruct (decide (k' = k)) as [->|Hne]; simpl.
    + by rewrite decide_True.
    + by rewrite decide_False.
Qed.

Lemma own_lookup_define_ne k k' p ps :
  k ≠ k' → own_lookup k' (own_define k p ps) = own_lookup k' ps.
Proof.
  intros Hne. induction ps as [|[k0 p0] ps IH]; simpl.
  - by rewrite decide_False.
  - destruct (decide (k0 = k)) as [->|Hk]; simpl.
    + by rewrite !decide_False.
    + destruct (decide (k0 = k')); [done|apply IH].
Qed.

(** ** Chains *)

Lemma chain_from_fuel h n m l :
  l < n → l < m → chain_from n h l = chain_from m h l.
Proof.
  revert m l. induction n as [|n IH]; intros m l Hn Hm; [lia|].
  destruct m as [|m]; [lia|]. simpl.
  destruct (h !! l) as [o|]; [|done]. f_equal.
  destruct (o_proto o) as [p|]; [|done].
  destruct (decide (p < l)); [|done]. apply IH; lia.
Qed.

Lemma chain_unfold h l :
  chain h l =
    match h !! l with
    | None => []
    | Some o =>
        l :: match o_proto o with
             | Some p => if decide (p < l) then chain h p else []
             | None => []
             end
    end.
Proof.
  unfold chain at 1. simpl. destruct (h !! l) as [o|]; [|done]. f_equal.
  destruct (o_proto o) as [p|]; [|done].
  destruct (decide (p < l)); [|done]. apply chain_from_fuel; lia.
Qed.

Lemma chain_bound h l x : x ∈ chain h l → x ≤ l ∧ is_Some (h !! x).
Proof.
  revert x. induction (lt_wf l) as [l _ IH]. intros x.
  rewrite chain_unfold. destruct (h !! l) as [o|] eqn:Hl; [|by intros ?%elem_of_nil].
  intros [->|Hx]%elem_of_cons; [by rewrite Hl; eauto|].
  destruct (o_proto o) as [p|]; [|by apply elem_of_nil in Hx].
  destruct (decide (p < l)); [|by apply elem_of_nil in Hx].
  destruct (IH p ltac:(done) x Hx). split; [lia|done].
Qed.

Lemma chain_tail_bound h l x : x ∈ tail (chain h l) → x < l.
Proof.
  rewrite chain_unfold. destruct (h !! l) as [o|]; [|by intros ?%elem_of_nil].
  simpl. destruct (o_proto o) as [p|]; [|by intros ?%elem_of_nil].
  destruct (decide (p < l)); [|by intros ?%elem_of_nil].
  intros [? _]%chain_bound. lia.
Qed.

(** Two heaps that agree up to [l] have the same chain from [l]. *)
Lemma chain_agree h h' l :
  (∀ x, x ≤ l → o_proto <$> h !! x = o_proto <$> h' !! x) →
  chain h l = chain h' l.
Proof.
  induction (lt_wf l) as [l _ IH]. intros Hagree.
  rewrite (chain_unfold h), (chain_unfold h').
  pose proof (Hagree l ltac:(done)) as Hl.
  destruct (h !! l) as [o|], (h' !! l) as [o'|]; simplify_eq/=; [|done].
  rewrite Hl. f_equal. destruct (o_proto o') as [p|]; [|done].
  destruct (decide (p < l)); [|done].
  apply IH; [done|]. intros x ?. apply Hagree. lia.
Qed.

Lemma chain_app h ext l : l < List.length h → chain (h ++ ext) l = chain h l.
Proof.
  intros Hl. apply chain_agree. intros x ?.
  by rewrite lookup_app_l by lia.
Qed.

Lemma chain_alter h f e l :
  (∀ o, o_proto (f o) = o_proto o) → chain (alter f e h) l = chain h l.
Proof.
  intros Hf. apply chain_agree. intros x _.
  destruct (decide (e = x)) as [->|Hne].
  - rewrite list_lookup_alter_eq. destruct (h !! x); simpl; [|done].
    by rewrite Hf.
  - by rewrite list_lookup_alter_ne.
Qed.

(** ** Reads *)

Lemma lookup_in_agree h h' ls k :
  (∀ x, x ∈ ls → own_lookup k (props_of h x) = own_lookup k (props_of h' x)) →
  lookup_in h ls k = lookup_in h' ls k.
Proof.
  induction ls as [|l ls IH]; intros Hagree; simpl; [done|].
  rewrite (Hagree l) by (apply elem_of_cons; by left).
  destruct (own_lookup _ _); [done|].
  apply IH. intros x ?. apply Hagree. apply elem_of_cons. by right.
Qed.

Lemma props_of_app h ext l :
  l < List.length h → props_of (h ++ ext) l = props_of h l.
Proof. intros. unfold props_of. by rewrite lookup_app_l. Qed.

Lemma get_app h ext l k : l < List.length h → get (h ++ ext) l k = get h l k.
Proof.
  intros Hl. unfold get. rewrite chain_app by done.
  apply lookup_in_agree. intros x [? _]%chain_bound.
  rewrite props_of_app; [done|lia].
Qed.

Lemma get_unfold h l k :
  get h l k =
    match h !! l with
    | None => VUndefined
    | Some o =>
        match own_lookup k (o_props o) with
        | Some p => p_value p
        | None =>
            match o_proto o with
            | Some q => if decide (q < l) then get h q k else VUndefined
            | None => VUndefined
            end
        end
    end.
Proof.
  unfold get. rewrite chain_unfold. unfold props_of.
  destruct (h !! l) as [o|] eqn:Hl; [|done]. simpl. unfold props_of. rewrite Hl.
  destruct (own_lookup k (o_props o)); [done|].
  destruct (o_proto o) as [q|]; [|done]. by destruct (decide (q < l)).
Qed.

Lemma has_ancestor_unfold h l p :
  has_ancestor h l p =
    match h !! l with
    | None => false
    | Some o =>
        match o_proto o with
        | Some q => if decide (q < l) then bool_decide (p ∈ chain h q) else false
        | None => false
        end
    end.
Proof.
  unfold has_ancestor. rewrite chain_unfold.
  destruct (h !! l) as [o|]; simpl; [|done].
  destruct (o_proto o) as [q|]; [|done].
  by destruct (decide (q < l)).
Qed.

Lemma has_ancestor_app h ext l p :
  l < List.length h → has_ancestor (h ++ ext) l p = has_ancestor h l p.
Proof. intros. unfold has_ancestor. by rewrite chain_app. Qed.

Lemma has_ancestor_alter h f e l p :
  (∀ o, o_proto (f o) = o_proto o) →
  has_ancestor (alter f e h) l p = has_ancestor h l p.
Proof. intros. unfold has_ancestor. by rewrite chain_alter. Qed.

(** * Properties of numerals *)

Lemma pretty_N_char_digit x : is_Some (digit_of (pretty_N_char x)).
Proof. unfold pretty_N_char. repeat case_match; by eexists. Qed.

Lemma pretty_N_go_head x s :
  numeral_head s = true → numeral_head (pretty_N_go x s) = true.
Proof.
  revert s. induction (N.lt_wf_0 x) as [x _ IH]; intros s Hs.
  destruct (decide (x = 0)%N) as [->|Hx]; [by rewrite pretty_N_go_0|].
  rewrite pretty_N_go_step by lia.
  apply IH; [apply N.div_lt; lia|]. simpl.
  by destruct (pretty_N_char_digit (x `mod` 10)%N) as [d ->].
Qed.

Lemma pretty_N_head (x : N) : numeral_head (pretty x) = true.
Proof.
  unfold pretty, pretty_N. case_decide; [done|].
  rewrite pretty_N_go_step by lia. apply pretty_N_go_head. simpl.
  by destruct (pretty_N_char_digit (x `mod` 10)%N) as [d ->].
Qed.

Lemma String_head n : numeral_head (String_ n) = true.
Proof.
  unfold String_, pretty, pretty_Z. destruct n as [|p|p]; [done| |done].
  apply (pretty_N_head (N.pos p)).
Qed.

Lemma String_inj n m : String_ n = String_ m → n = m.
Proof. apply (inj pretty). Qed.

(** No numeral is one of the names the module itself gives to a property
    of [createError]. *)
Lemma String_not_name n k : numeral_head k = false → String_ n ≠ k.
Proof. intros Hk <-. by rewrite String_head in Hk. Qed.

(** The argument of [Number] in [codeClass] is always a numeral. *)
Lemma codeClass_number status :
  Number_ (charAt0 (String_ status) +:+ "00") = Some (codeClass status).
Proof.
  unfold codeClass. pose proof (String_head status) as Hhead.
  destruct (String_ status) as [|a s]; [done|].
  destruct a as [[] [] [] [] [] [] [] []]; vm_compute in Hhead; try done.
Qed.

(** [codeClass] yields a multiple of 100 below 1000, and maps each of
    them to itself. *)
Lemma codeClass_idem status : codeClass (codeClass status) = codeClass status.
Proof.
  assert (codeClass status
          ∈ [0; 100; 200; 300; 400; 500; 600; 700; 800; 900]%Z) as Hvalues.
  { unfold codeClass. pose proof (String_head status) as Hhead.
    destruct (String_ status) as [|a s]; [done|].
    destruct a as [[] [] [] [] [] [] [] []]; vm_compute in Hhead; try done;
      vm_compute; repeat (first [by left|right]). }
  repeat (apply elem_of_cons in Hvalues as [->|Hvalues]; [by vm_compute|]).
  by apply elem_of_nil in Hvalues.
Qed.

Lemma codeClass_range c :
  (400 ≤ c < 600)%Z → codeClass c = class_of_range c.
Proof.
  intros Hc.
  assert (Forall (λ c, codeClass c = class_of_range c) (seqZ 400 200)) as Hall.
  { apply (bool_decide_unpack _). by vm_compute. }
  rewrite Forall_forall in Hall. apply Hall.
  apply elem_of_seqZ. lia.
Qed.

(** * Properties of the computations *)

Lemma bind_Ok {A B} (m : M A) (f : A → M B) s b s' :
  bind m f s = Ok b s' ↔ ∃ a s1, m s = Ok a s1 ∧ f a s1 = Ok b s'.
Proof.
  unfold bind. split.
  - destruct (m s) as [a s1| |]; [eauto|done..].
  - by intros (a & s1 & -> & ?).
Qed.

Lemma bind_step {A B} (m : M A) (f : A → M B) s a s1 :
  m s = Ok a s1 → bind m f s = f a s1.
Proof. unfold bind. by intros ->. Qed.

Lemma bind_throw {A B} (m : M A) (f : A → M B) s e :
  m s = Throw e → bind m f s = Throw e.
Proof. unfold bind. by intros ->. Qed.

(** ** Writes to one object *)

Lemma same_but_refl e W h : same_but e W h h.
Proof. split; [done|]. intros l o Hl. exists o. eauto. Qed.

Lemma same_but_trans e W h1 h2 h3 :
  same_but e W h1 h2 → same_but e W h2 h3 → same_but e W h1 h3.
Proof.
  intros [Hlen1 H1] [Hlen2 H2]. split; [congruence|].
  intros l o Hl. destruct (H1 l o Hl) as (o2 & Hl2 & Hp2 & Hc2 & He2 & Hk2).
  destruct (H2 l o2 Hl2) as (o3 & Hl3 & Hp3 & Hc3 & He3 & Hk3).
  exists o3. split_and!; [done|congruence|congruence| |].
  - intros Hne. by rewrite He3, He2.
  - intros k Hk. rewrite Hk3, Hk2; done.
Qed.

Lemma same_but_weaken e (W W' : string → Prop) h h' :
  (∀ k, W k → W' k) → same_but e W h h' → same_but e W' h h'.
Proof.
  intros HW [Hlen H]. split; [done|]. intros l o Hl.
  destruct (H l o Hl) as (o' & ? & ? & ? & ? & Hk).
  exists o'. split_and!; [done..|]. intros k ?. apply Hk; auto.
Qed.

Lemma same_but_lookup_None e W h h' l :
  same_but e W h h' → h !! l = None → h' !! l = None.
Proof.
  intros [Hlen _] Hl. apply lookup_ge_None. apply lookup_ge_None in Hl. lia.
Qed.

Lemma same_but_lookup_ne e W h h' l :
  same_but e W h h' → l ≠ e → h' !! l = h !! l.
Proof.
  intros Hsame Hne. destruct (h !! l) as [o|] eqn:Hl.
  - destruct Hsame as [_ H]. destruct (H l o Hl) as (o' & -> & _ & _ & Ho & _).
    by rewrite Ho.
  - by apply (same_but_lookup_None _ _ _ _ _ Hsame).
Qed.

Lemma same_but_write e k v h : same_but e (λ k', k' = k) h (write e k v h).
Proof.
  unfold write. split; [by rewrite length_alter|]. intros l o Hl.
  destruct (decide (e = l)) as [->|Hne].
  - rewrite list_lookup_alter_eq, Hl. simpl. eexists. split_and!; [done..|].
    intros k' Hk. simpl. apply own_lookup_assign_ne. naive_solver.
  - rewrite list_lookup_alter_ne by done. exists o. eauto.
Qed.

Lemma same_but_chain e W h h' l : same_but e W h h' → chain h' l = chain h l.
Proof.
  intros Hsame. apply chain_agree. intros x _.
  destruct (h !! x) as [o|] eqn:Hx.
  - destruct Hsame as [_ H]. destruct (H x o Hx) as (o' & -> & Hp & _).
    simpl. by rewrite Hp.
  - by rewrite (same_but_lookup_None _ _ _ _ _ Hsame Hx).
Qed.

Lemma same_but_own e W h h' l k :
  same_but e W h h' → l ≠ e ∨ ¬ W k →
  own_lookup k (props_of h' l) = own_lookup k (props_of h l).
Proof.
  intros Hsame Hk. unfold props_of. destruct (h !! l) as [o|] eqn:Hl.
  - destruct Hsame as [_ H].
    destruct (H l o Hl) as (o' & -> & _ & _ & Hne & Ho).
    destruct Hk as [?|?]; [by rewrite Hne|eauto].
  - by rewrite (same_but_lookup_None _ _ _ _ _ Hsame Hl).
Qed.

(** A key that was not written reads the same everywhere. *)
Lemma same_but_get e W h h' l k :
  same_but e W h h' → ¬ W k → get h' l k = get h l k.
Proof.
  intros Hsame Hk. unfold get. rewrite (same_but_chain _ _ _ _ _ Hsame).
  apply lookup_in_agree. intros x _. apply (same_but_own _ _ _ _ _ _ Hsame). auto.
Qed.

(** An object that does not inherit from [e] reads the same. *)
Lemma same_but_get_apart e W h h' l k :
  same_but e W h h' → e ∉ chain h l → get h' l k = get h l k.
Proof.
  intros Hsame He. unfold get. rewrite (same_but_chain _ _ _ _ _ Hsame).
  apply lookup_in_agree. intros x Hx. apply (same_but_own _ _ _ _ _ _ Hsame).
  left. by intros ->.
Qed.




Lemma get_write_eq h e k v : is_Some (h !! e) → get (write e k v h) e k = v.
Proof.
  intros [o Ho]. unfold write. rewrite get_unfold, list_lookup_alter_eq, Ho. simpl.
  pose proof (own_lookup_assign_eq k v (o_props o)) as Hown.
  destruct (own_lookup k _) as [p|]; by simplify_eq/=.
Qed.

(** ** Operations on the objects allocated last

    In [h ++ tl] the objects of [tl] are the most recent ones; the lemmas
    below run the primitives on such a heap. *)

Lemma alloc_tail h tl adv o :
  alloc o (State (h ++ tl) adv)
  = Ok (List.length h + List.length tl) (State (h ++ (tl ++ [o])) adv).
Proof. unfold alloc. simpl. by rewrite length_app, app_assoc. Qed.

Lemma update_tail h tl adv i f :
  update (List.length h + i) f (State (h ++ tl) adv)
  = Ok tt (State (h ++ alter f i tl) adv).
Proof. unfold update. simpl. by rewrite alter_app_r. Qed.

Lemma update_head h tl adv l f :
  l < List.length h →
  update l f (State (h ++ tl) adv) = Ok tt (State (alter f l h ++ tl) adv).
Proof. intros. unfold update. simpl. by rewrite alter_app_l. Qed.

Lemma lookup_tail (h tl : list obj) i : (h ++ tl) !! (List.length h + i) = tl !! i.
Proof. rewrite lookup_app_r by lia. f_equal. lia. Qed.

Lemma props_of_tail h tl i :
  props_of (h ++ tl) (List.length h + i)
  = match tl !! i with Some o => o_props o | None => [] end.
Proof. unfold props_of. by rewrite lookup_tail. Qed.

Lemma get_tail h tl i k :
  get (h ++ tl) (List.length h + i) k =
    match tl !! i with
    | None => VUndefined
    | Some o =>
        match own_lookup k (o_props o) with
        | Some p => p_value p
        | None =>
            match o_proto o with
            | Some q =>
                if decide (q < List.length h) then get h q k
                else if decide (q < List.length h + i) then get (h ++ tl) q k
                else VUndefined
            | None => VUndefined
            end
        end
    end.
Proof.
  rewrite get_unfold, lookup_tail. destruct (tl !! i) as [o|]; [|done].
  destruct (own_lookup k (o_props o)); [done|].
  destruct (o_proto o) as [q|]; [|done].
  destruct (decide (q < List.length h)).
  - rewrite decide_True by lia. by apply get_app.
  - done.
Qed.

Lemma chain_tail h tl i :
  chain (h ++ tl) (List.length h + i) =
    match tl !! i with
    | None => []
    | Some o =>
        (List.length h + i) ::
        match o_proto o with
        | Some q =>
            if decide (q < List.length h) then chain h q
            else if decide (q < List.length h + i) then chain (h ++ tl) q
            else []
        | None => []
        end
    end.
Proof.
  rewrite chain_unfold, lookup_tail. destruct (tl !! i) as [o|]; [|done].
  f_equal. destruct (o_proto o) as [q|]; [|done].
  destruct (decide (q < List.length h)).
  - rewrite decide_True by lia. by apply chain_app.
  - done.
Qed.

(** ** The objects of the module *)

Lemma base_ok_length h : base_ok h → 8 < List.length h.
Proof. intros [_ _ _ _ H]. by apply lookup_lt_Some in H. Qed.

Lemma base_ok_app h ext : base_ok h → base_ok (h ++ ext).
Proof.
  intros [H0 H1 H2 H7 H8].
  split; by apply lookup_app_l_Some.
Qed.

Lemma base_ok_alter h f l :
  l ∉ [ObjectPrototype; FunctionPrototype; ErrorPrototype; HttpError_obj;
       HttpError_prototype] →
  base_ok h → base_ok (alter f l h).
Proof.
  intros Hl [H0 H1 H2 H7 H8].
  split; (rewrite list_lookup_alter_ne; [done|]); intros ->;
    apply Hl; repeat constructor.
Qed.

Lemma createError_obj_apart :
  createError_obj ∉ [ObjectPrototype; FunctionPrototype; ErrorPrototype;
                     HttpError_obj; HttpError_prototype].
Proof.
  intros H. repeat (apply elem_of_cons in H as [H|H]; [discriminate|]).
  by apply elem_of_nil in H.
Qed.

Lemma base_HttpError_prototype_read h :
  base_ok h → get h HttpError_obj "prototype" = VRef HttpError_prototype.
Proof. intros [_ _ _ H7 _]. by rewrite get_unfold, H7. Qed.

Lemma base_chain_HttpError_prototype h :
  base_ok h →
  chain h HttpError_prototype
  = [HttpError_prototype; ErrorPrototype; ObjectPrototype].
Proof.
  intros [H0 _ H2 _ H8].
  rewrite chain_unfold, H8. simpl.
  rewrite chain_unfold, H2. simpl.
  by rewrite chain_unfold, H0.
Qed.

Lemma alloc_second h a adv o :
  alloc o (State (h ++ [a]) adv)
  = Ok (S (List.length h)) (State (h ++ [a; o]) adv).
Proof.
  unfold alloc. simpl. rewrite length_app, <- app_assoc. simpl.
  by rewrite Nat.add_1_r.
Qed.

Lemma update_first h o tl adv f :
  update (List.length h) f (State (h ++ o :: tl) adv)
  = Ok tt (State (h ++ f o :: tl) adv).
Proof.
  rewrite <- (Nat.add_0_r (List.length h)) at 1. by rewrite update_tail.
Qed.

Lemma update_second h o1 o tl adv f :
  update (S (List.length h)) f (State (h ++ o1 :: o :: tl) adv)
  = Ok tt (State (h ++ o1 :: f o :: tl) adv).
Proof. rewrite <- Nat.add_1_r. by rewrite update_tail. Qed.

Lemma get_first h o tl k :
  get (h ++ o :: tl) (List.length h) k =
    match own_lookup k (o_props o) with
    | Some p => p_value p
    | None =>
        match o_proto o with
        | Some q => if decide (q < List.length h) then get h q k else VUndefined
        | None => VUndefined
        end
    end.
Proof.
  rewrite <- (Nat.add_0_r (List.length h)) at 1. rewrite get_tail. simpl.
  destruct (own_lookup k (o_props o)); [done|].
  destruct (o_proto o) as [q|]; [|done].
  destruct (decide (q < List.length h)); [done|].
  rewrite decide_False by lia. done.
Qed.

Lemma get_write_ne h e k v l k' : k ≠ k' → get (write e k v h) l k' = get h l k'.
Proof.
  intros Hne. apply (same_but_get _ _ _ _ _ _ (same_but_write e k v h)). congruence.
Qed.

Lemma write_lookup_eq h e k v p c ps :
  h !! e = Some (Obj p c ps) →
  write e k v h !! e = Some (Obj p c (own_assign k v ps)).
Proof. intros He. unfold write. by rewrite list_lookup_alter_eq, He. Qed.

Lemma write_length e k v h : List.length (write e k v h) = List.length h.
Proof. apply length_alter. Qed.

Lemma write_head h tl l k v :
  l < List.length h → write l k v (h ++ tl) = write l k v h ++ tl.
Proof. intros. unfold write. by rewrite alter_app_l. Qed.

Lemma write_second h o1 o tl k v :
  write (S (List.length h)) k v (h ++ o1 :: o :: tl)
  = h ++ o1 :: Obj (o_proto o) (o_call o) (own_assign k v (o_props o)) :: tl.
Proof. unfold write. rewrite <- Nat.add_1_r. by rewrite alter_app_r. Qed.

Lemma make_function_run h adv name f :
  make_function name f (State h adv)
  = Ok (List.length h)
       (State (h ++ [Obj (Some FunctionPrototype) (Some f)
                       [("name", hidden (VStr name));
                        ("prototype", hidden (VRef (S (List.length h))))];
                     Obj (Some ObjectPrototype) None
                       [("constructor", hidden (VRef (List.length h)))]]) adv).
Proof.
  unfold make_function, define.
  erewrite bind_step by reflexivity. simpl.
  erewrite bind_step by apply alloc_second.
  erewrite bind_step by apply update_first.
  done.
Qed.

Lemma inherits_run h adv F P sup sp :
  sup < List.length h →
  get h sup "prototype" = VRef sp →
  own_lookup "super_" (o_props F) = None →
  own_lookup "prototype" (o_props F) = Some (hidden (VRef (S (List.length h)))) →
  inherits (List.length h) (VRef sup) (State (h ++ [F; P]) adv)
  = Ok tt (State (h ++ [Obj (o_proto F) (o_call F)
                          (own_define "super_" (hidden (VRef sup)) (o_props F));
                        Obj (Some sp) (o_call P) (o_props P)]) adv).
Proof.
  intros Hsup Hsp HF1 HF2. unfold inherits, read_v, read, define, set_proto.
  unfold bind at 1. simpl. rewrite get_app by done. rewrite Hsp.
  erewrite bind_step by apply update_first.
  unfold bind at 1. simpl. rewrite get_first. simpl.
  rewrite own_lookup_define_ne by done. rewrite HF2. simpl.
  by rewrite update_second.
Qed.

Lemma props_of_first h o tl : props_of (h ++ o :: tl) (List.length h) = o_props o.
Proof.
  rewrite <- (Nat.add_0_r (List.length h)) at 1. by rewrite props_of_tail.
Qed.

Lemma nameFunc_run h F tl adv name desc :
  own_lookup "name" (o_props F) = Some desc →
  nameFunc (List.length h) name (State (h ++ F :: tl) adv)
  = Ok tt (State (h ++ Obj (o_proto F) (o_call F)
                         (own_define "name" (Prop_ (VStr name) (p_enumerable desc))
                            (o_props F)) :: tl) adv).
Proof.
  intros Hdesc. unfold nameFunc, define. simpl.
  rewrite props_of_first, Hdesc. apply update_first.
Qed.

Lemma createClientErrorConstructor_run h adv name code :
  base_ok h →
  createClientErrorConstructor (VRef HttpError_obj) name code (State h adv)
  = Ok (VRef (List.length h))
       (State (h ++ [kind_function true (toClassName name) code
                       (S (List.length h));
                     kind_prototype true code (List.length h)]) adv).
Proof.
  intros Hbase. pose proof (base_ok_length _ Hbase) as Hlen.
  unfold createClientErrorConstructor.
  erewrite bind_step by apply make_function_run.
  erewrite bind_step
    by (apply inherits_run;
        [unfold HttpError_obj; lia
        |by apply base_HttpError_prototype_read|done..]).
  erewrite bind_step by (by apply nameFunc_run).
  unfold bind at 1, read. simpl. rewrite get_first. simpl.
  unfold assign_v, assign, bind. simpl. by rewrite !write_second.
Qed.

Lemma createServerErrorConstructor_run h adv name code :
  base_ok h →
  createServerErrorConstructor (VRef HttpError_obj) name code (State h adv)
  = Ok (VRef (List.length h))
       (State (h ++ [kind_function false (toClassName name) code
                       (S (List.length h));
                     kind_prototype false code (List.length h)]) adv).
Proof.
  intros Hbase. pose proof (base_ok_length _ Hbase) as Hlen.
  unfold createServerErrorConstructor.
  erewrite bind_step by apply make_function_run.
  erewrite bind_step
    by (apply inherits_run;
        [unfold HttpError_obj; lia
        |by apply base_HttpError_prototype_read|done..]).
  erewrite bind_step by (by apply nameFunc_run).
  unfold bind at 1, read. simpl. rewrite get_first. simpl.
  unfold assign_v, assign, bind. simpl. by rewrite !write_second.
Qed.

Lemma phrase_in_codes t code :
  code ∈ statuses_codes t ↔ is_Some (phrase_in t code).
Proof.
  unfold statuses_codes. induction t as [|[c s] t IH]; simpl.
  - split; [by intros ?%elem_of_nil|by intros [? ?]].
  - rewrite elem_of_cons. destruct (decide (c = code)) as [->|Hne].
    + split; eauto.
    + rewrite IH. split; [by intros [?|?]|by right].
Qed.

Lemma is_kind_app h ext v code : is_kind h v code → is_kind (h ++ ext) v code.
Proof.
  intros (f & phrase & ? & ? & ? & ? & Hf & Hp).
  exists f, phrase. split_and!; [done..| |]; by apply lookup_app_l_Some.
Qed.

Lemma is_kind_alter h g l v code :
  l ≤ createError_obj → is_kind h v code → is_kind (alter g l h) v code.
Proof.
  intros Hl (f & phrase & ? & ? & ? & ? & Hf & Hp).
  exists f, phrase. split_and!; [done..| |];
    (rewrite list_lookup_alter_ne;
     [done|unfold HttpError_prototype, createError_obj in *; lia]).
Qed.

(** One round of the loop of [populateConstructorExports]. *)
Lemma forEachCode_run h adv code :
  base_ok h →
  code ∈ statuses_codes table →
  ∃ phrase, phrase_in table code = Some phrase ∧
  forEachCode table toIdentifier createError_obj (VRef HttpError_obj) code
    (State h adv)
  = Ok tt
      (State
         (if has_kind code then
            write createError_obj (toIdentifier phrase) (VRef (List.length h))
              (write createError_obj (String_ code) (VRef (List.length h)) h)
            ++ [kind_function (codeClass code =? 400)%Z
                  (toClassName (toIdentifier phrase)) code (S (List.length h));
                kind_prototype (codeClass code =? 400)%Z code (List.length h)]
          else h)
         adv).
Proof.
  intros Hbase Hcode. pose proof (base_ok_length _ Hbase) as Hlen.
  pose proof Hcode as [phrase Hphrase]%phrase_in_codes.
  exists phrase. split; [done|].
  unfold forEachCode, statuses_message, has_kind. rewrite Hphrase.
  rewrite bool_decide_true by done. simpl.
  destruct (codeClass code =? 400)%Z eqn:H400; simpl.
  - erewrite bind_step by (by apply createClientErrorConstructor_run).
    simpl. unfold assign, bind. simpl.
    by rewrite !write_head
      by (rewrite ?write_length; unfold createError_obj; lia).
  - destruct (codeClass code =? 500)%Z eqn:H500; simpl; [|done].
    erewrite bind_step by (by apply createServerErrorConstructor_run).
    simpl. unfold assign, bind. simpl.
    by rewrite !write_head
      by (rewrite ?write_length; unfold createError_obj; lia).
Qed.

Lemma has_kind_class code :
  has_kind code = true →
  ((codeClass code =? 400)%Z || (codeClass code =? 500)%Z) = true.
Proof. unfold has_kind. by intros [_ ?]%andb_prop. Qed.

Lemma populated_step seen h adv code :
  populated seen h → code ∈ statuses_codes table →
  ∃ h', forEachCode table toIdentifier createError_obj (VRef HttpError_obj)
          code (State h adv) = Ok tt (State h' adv)
        ∧ populated (code :: seen) h'.
Proof.
  intros [Hbase Hself Hnum Hcode Hname] Hin.
  pose proof (base_ok_length _ Hbase) as Hlen.
  destruct (forEachCode_run h adv code Hbase Hin) as (phrase & Hphrase & Hrun).
  eexists. split; [exact Hrun|].
  destruct (has_kind code) eqn:Hkind.
  2: { split; [done..| |].
       - intros H1 n. specialize (Hcode H1 n).
         destruct (decide (n = code)) as [->|Hne].
         + rewrite Hkind in *. done.
         + destruct (has_kind n); [|done]. simpl in *.
           rewrite (bool_decide_ext (n ∈ code :: seen) (n ∈ seen)); [done|].
           rewrite elem_of_cons. naive_solver.
       - intros H1 H2 n p Hn [->|?]%elem_of_cons; [congruence|eauto]. }
  set (f := List.length h) in *.
  set (F := kind_function _ _ _ _). set (P := kind_prototype _ _ _).
  set (h1 := write createError_obj (String_ code) (VRef f) h).
  set (h2 := write createError_obj (toIdentifier phrase) (VRef f) h1).
  assert (is_Some (h !! createError_obj)) as Hce
    by (apply lookup_lt_is_Some; unfold createError_obj; lia).
  assert (is_Some (h1 !! createError_obj)) as Hce1
    by (apply lookup_lt_is_Some; unfold h1; rewrite write_length;
        unfold createError_obj; lia).
  assert (List.length h2 = f) as Hlen2 by (unfold h2, h1; by rewrite !write_length).
  assert (∀ k, get (h2 ++ [F; P]) createError_obj k =
               if decide (k = toIdentifier phrase) then VRef f
               else if decide (k = String_ code) then VRef f
               else get h createError_obj k) as Hget.
  { intros k. rewrite get_app by (rewrite Hlen2; unfold createError_obj; lia).
    unfold h2. destruct (decide (k = toIdentifier phrase)) as [->|Hk1].
    { by apply get_write_eq. }
    rewrite get_write_ne by done. unfold h1.
    destruct (decide (k = String_ code)) as [->|Hk2].
    { by apply get_write_eq. }
    by rewrite get_write_ne. }
  assert (∀ v c, is_kind h v c → is_kind (h2 ++ [F; P]) v c) as Hold.
  { intros v c Hv. apply is_kind_app. unfold h2, h1, write.
    by do 2 (apply is_kind_alter; [done|]). }
  assert (is_kind (h2 ++ [F; P]) (VRef f) code) as Hnew.
  { exists f, phrase. split_and!; [done|unfold HttpError_prototype; lia|done| | |].
    - by apply has_kind_class.
    - rewrite lookup_app_r by lia. by rewrite Hlen2, Nat.sub_diag.
    - rewrite lookup_app_r by lia. rewrite Hlen2.
      by replace (S f - f) with 1 by lia. }
  split.
  - apply base_ok_app. unfold h2, h1, write.
    by do 2 (apply base_ok_alter; [apply createError_obj_apart|]).
  - destruct Hself as [ps Hps]. eexists. apply lookup_app_l_Some.
    unfold h2, h1. by rewrite !(write_lookup_eq _ _ _ _ _ _ _ Hps) || 
      (erewrite write_lookup_eq; [|by erewrite write_lookup_eq]).
  - intros k Hk. rewrite Hget. repeat case_decide; eauto.
    destruct (Hnum k Hk) as [->|[c Hc]]; eauto.
  - intros H1 n. rewrite Hget. specialize (Hcode H1 n).
    pose proof (H1 code phrase Hkind Hphrase) as Hnn.
    rewrite decide_False by (intros Heq; by rewrite <- Heq, String_head in Hnn).
    destruct (decide (String_ n = String_ code)) as [->%String_inj|Hne].
    + rewrite Hkind. rewrite bool_decide_true by (apply elem_of_cons; by left).
      done.
    + assert (n ≠ code) by congruence.
      rewrite (bool_decide_ext (n ∈ code :: seen) (n ∈ seen))
        by (rewrite elem_of_cons; naive_solver).
      destruct (has_kind n && bool_decide (n ∈ seen)); eauto.
  - intros H1 H2 n p Hn Hseen Hp. rewrite !Hget.
    pose proof (H1 code phrase Hkind Hphrase) as Hnn.
    pose proof (H1 n p Hn Hp) as Hnp.
    destruct (decide (n = code)) as [->|Hne].
    + assert (p = phrase) as -> by congruence.
      rewrite decide_True by done.
      rewrite decide_False by (intros Heq; by rewrite <- Heq, String_head in Hnn).
      by rewrite decide_True.
    + rewrite decide_False by (intros Heq; apply Hne; eauto).
      rewrite decide_False by (intros Heq; by rewrite Heq, String_head in Hnp).
      rewrite decide_False by (intros Heq; by rewrite <- Heq, String_head in Hnn).
      rewrite decide_False by (by intros ?%String_inj).
      apply elem_of_cons in Hseen as [?|?]; [done|]. by apply Hname.
Qed.

Lemma populated_seen seen seen' h :
  (∀ n, n ∈ seen ↔ n ∈ seen') → populated seen h → populated seen' h.
Proof.
  intros Heq [Hbase Hself Hnum Hcode Hname]. split; [done..| |].
  - intros H1 n. specialize (Hcode H1 n).
    by rewrite (bool_decide_ext (n ∈ seen') (n ∈ seen)).
  - intros H1 H2 n p Hn Hseen. apply Hname; [done..|]. by apply Heq.
Qed.

Lemma populated_app seen h ext : populated seen h → populated seen (h ++ ext).
Proof.
  intros [Hbase Hself Hnum Hcode Hname].
  pose proof (base_ok_length _ Hbase) as Hlen.
  assert (∀ k, get (h ++ ext) createError_obj k = get h createError_obj k)
    as Hget by (intros; apply get_app; unfold createError_obj; lia).
  split.
  - by apply base_ok_app.
  - destruct Hself as [ps Hps]. exists ps. by apply lookup_app_l_Some.
  - intros k Hk. rewrite Hget.
    destruct (Hnum k Hk) as [?|[c ?]]; eauto using is_kind_app.
  - intros H1 n. rewrite Hget. specialize (Hcode H1 n).
    destruct (has_kind n && _); eauto using is_kind_app.
  - intros H1 H2 n p ???. rewrite !Hget. eauto.
Qed.

Lemma populated_chain seen h :
  populated seen h →
  chain h createError_obj
  = [createError_obj; FunctionPrototype; ObjectPrototype].
Proof.
  intros [[H0 H1 _ _ _] [ps Hps] _ _ _].
  rewrite chain_unfold, Hps. simpl.
  rewrite chain_unfold, H1. simpl.
  by rewrite chain_unfold, H0.
Qed.

Lemma populated_write_exports seen h k v :
  populated seen h → populated seen (write module_exports k v h).
Proof.
  intros Hpop. pose proof (populated_chain _ _ Hpop) as Hchain.
  destruct Hpop as [Hbase Hself Hnum Hcode Hname].
  assert (∀ k', get (write module_exports k v h) createError_obj k'
                = get h createError_obj k') as Hget.
  { intros k'. apply (same_but_get_apart _ _ _ _ _ _ (same_but_write _ _ _ _)).
    rewrite Hchain. intros Hin.
    repeat (apply elem_of_cons in Hin as [Hin|Hin]; [discriminate|]).
    by apply elem_of_nil in Hin. }
  assert (∀ v' c, is_kind h v' c → is_kind (write module_exports k v h) v' c)
    as Hkind.
  { intros v' c. apply is_kind_alter. unfold module_exports, createError_obj. lia. }
  split.
  - apply base_ok_alter; [|done]. intros Hin.
    repeat (apply elem_of_cons in Hin as [Hin|Hin]; [discriminate|]).
    by apply elem_of_nil in Hin.
  - destruct Hself as [ps Hps]. exists ps. unfold write.
    by rewrite list_lookup_alter_ne.
  - intros k' Hk'. rewrite Hget. destruct (Hnum k' Hk') as [?|[c ?]]; eauto.
  - intros H1 n. rewrite Hget. specialize (Hcode H1 n).
    destruct (has_kind n && _); eauto.
  - intros H1 H2 n p ???. rewrite !Hget. eauto.
Qed.

Lemma populateConstructorExports_run codes seen h adv :
  populated seen h → (∀ c, c ∈ codes → c ∈ statuses_codes table) →
  ∃ h', populateConstructorExports table toIdentifier createError_obj codes
          (VRef HttpError_obj) (State h adv) = Ok tt (State h' adv)
        ∧ populated (codes ++ seen) h'.
Proof.
  revert seen h. induction codes as [|code codes IH]; intros seen h Hpop Hin.
  - exists h. done.
  - destruct (populated_step seen h adv code Hpop) as (h1 & Hrun1 & Hpop1).
    { apply Hin. apply elem_of_cons. by left. }
    destruct (IH (code :: seen) h1 Hpop1) as (h2 & Hrun2 & Hpop2).
    { intros c ?. apply Hin. apply elem_of_cons. by right. }
    exists h2. split.
    + simpl. by erewrite bind_step by exact Hrun1.
    + eapply populated_seen; [|exact Hpop2]. intros n.
      rewrite elem_of_app, elem_of_cons. simpl.
      rewrite elem_of_cons, elem_of_app. tauto.
Qed.

(** The module runs to its end, whatever the table, and leaves a
    populated registry. *)
Lemma module_body_run :
  ∃ h, module_body table toIdentifier host_state
       = Ok createError_obj (State h [])
     ∧ populated (statuses_codes table) h.
Proof.
  unfold module_body, createHttpErrorConstructor, createIsHttpErrorFunction.
  do 7 (erewrite bind_step by (lazy; reflexivity)).
  match goal with
  | |- context [bind _ _ (State ?h0 _)] =>
      assert (populated [] h0) as Hpop
  end.
  { split.
    - by split.
    - by eexists.
    - intros k Hk. left. rewrite get_unfold. simpl.
      repeat (let Heq := fresh in
              case_decide as Heq; [rewrite <- Heq in Hk; by vm_compute in Hk|]).
      rewrite get_unfold. simpl. by rewrite get_unfold.
    - intros _ n. simpl. rewrite andb_false_r. rewrite get_unfold. simpl.
      pose proof (String_head n) as Hk.
      repeat (let Heq := fresh in
              case_decide as Heq; [rewrite <- Heq in Hk; by vm_compute in Hk|]).
      rewrite get_unfold. simpl. by rewrite get_unfold.
    - by intros _ _ n p _ ?%elem_of_nil. }
  destruct (populateConstructorExports_run (statuses_codes table) [] _ []
              Hpop ltac:(done)) as (h1 & Hrun & Hpop1).
  erewrite bind_step by exact Hrun. simpl.
  eexists. split; [reflexivity|].
  apply populated_write_exports.
  eapply populated_seen; [|exact Hpop1]. intros n. by rewrite app_nil_r.
Qed.

Lemma loaded_in_populated s :
  loaded_in s → populated (statuses_codes table) (st_heap s).
Proof.
  intros (s0 & ext & Hrun & ->).
  destruct module_body_run as (h & Hrun' & Hpop).
  rewrite Hrun in Hrun'. injection Hrun' as ->. by apply populated_app.
Qed.

(** ** What a kind provides *)

Lemma is_kind_call h v code :
  is_kind h v code →
  ∃ f phrase, v = VRef f ∧ phrase_in table code = Some phrase ∧
    h !! f ≫= o_call
    = Some (kind_fn (codeClass code =? 400)%Z
              (toClassName (toIdentifier phrase)) code).
Proof.
  intros (f & phrase & -> & _ & ? & _ & Hf & _). exists f, phrase.
  by rewrite Hf.
Qed.

Lemma is_kind_prototype h f code :
  is_kind h (VRef f) code → get h f "prototype" = VRef (S f).
Proof.
  intros (f' & phrase & [= <-] & _ & _ & _ & Hf & _).
  by rewrite get_unfold, Hf.
Qed.

Lemma is_kind_chain h f code :
  base_ok h → is_kind h (VRef f) code →
  chain h (S f)
  = [S f; HttpError_prototype; ErrorPrototype; ObjectPrototype].
Proof.
  intros Hbase (f' & phrase & [= <-] & Hlt & _ & _ & _ & Hp).
  rewrite chain_unfold, Hp. simpl.
  rewrite decide_True by lia.
  by rewrite base_chain_HttpError_prototype.
Qed.

Lemma is_kind_fields h f code :
  is_kind h (VRef f) code →
  get h (S f) "status" = VNum code
  ∧ get h (S f) "statusCode" = VNum code
  ∧ get h (S f) "expose" = VBool (codeClass code =? 400)%Z.
Proof.
  intros (f' & phrase & [= <-] & _ & _ & _ & _ & Hp).
  by rewrite !get_unfold, Hp.
Qed.

Lemma is_kind_bound h f code : is_kind h (VRef f) code → S f < List.length h.
Proof.
  intros (f' & phrase & [= <-] & _ & _ & _ & _ & Hp).
  by apply lookup_lt_Some in Hp.
Qed.

Lemma construct_kind_run h adv f code msg :
  is_kind h (VRef f) code →
  ∃ phrase, phrase_in table code = Some phrase ∧
    construct table (VRef f) msg (State h adv)
    = Ok (VRef (List.length h))
        (State (h ++ [kind_error f (toClassName (toIdentifier phrase))
                        (if negb (nullish msg) then msg else VStr phrase)])
           adv).
Proof.
  intros Hkind. pose proof (is_kind_prototype _ _ _ Hkind) as Hproto.
  destruct (is_kind_call _ _ _ Hkind) as (f' & phrase & [= <-] & Hphrase & Hcall).
  exists phrase. split; [done|]. unfold construct. simpl. rewrite Hcall.
  assert (∀ m cn,
    (let* err := new_Error m in
     let* proto := read f "prototype" in
     setPrototypeOf err proto ;;
     define err "message" (shown m) ;;
     define err "name" (hidden (VStr cn)) ;;
     ret (VRef err)) (State h adv)
    = Ok (VRef (List.length h)) (State (h ++ [kind_error f cn m]) adv)) as Hrun.
  { intros m cn. unfold new_Error.
    erewrite bind_step by reflexivity. simpl.
    unfold bind at 1, read. simpl.
    rewrite get_app by (apply is_kind_bound in Hkind; lia). rewrite Hproto.
    unfold setPrototypeOf, set_proto, define.
    do 3 erewrite bind_step by apply update_first. simpl.
    unfold ret, kind_error. do 4 f_equal. by destruct m. }
  unfold kind_fn, ClientError, ServerError, statuses_message.
  destruct (codeClass code =? 400)%Z; rewrite Hphrase; apply Hrun.
Qed.

(** ** The phases of [build] *)

Lemma select_kind_run seen h adv status :
  populated seen h →
  select_kind createError_obj status (State h adv)
  = Ok (kind_selected h status) (State h adv)
  ∧ (kind_selected h status = VUndefined
     ∨ ∃ code, is_kind h (kind_selected h status) code).
Proof.
  intros Hpop. unfold select_kind, kind_selected, or_else, read, bind. simpl.
  destruct (pop_numeral _ _ Hpop (String_ status) (String_head _))
    as [->|[code Hkind]]; simpl.
  - split; [done|]. apply (pop_numeral _ _ Hpop), String_head.
  - pose proof Hkind as (f & ? & Heq & _). rewrite Heq in *. simpl. eauto.
Qed.

Lemma is_generic_run h adv e status K :
  K = VUndefined ∨ (∃ code, is_kind h K code) →
  is_generic (VRef e) status K (State h adv)
  = Ok (generic_of h e status K) (State h adv).
Proof.
  intros [->|[code Hkind]]; [done|].
  destruct (is_kind_call _ _ _ Hkind) as (f & phrase & -> & _ & Hcall).
  unfold is_generic, instanceof, bind. simpl. rewrite Hcall.
  rewrite (is_kind_prototype _ _ _ Hkind).
  destruct (has_ancestor h e (S f)); simpl; [|done]. done.
Qed.

Lemma add_properties_run h adv e status :
  add_properties (VRef e) status (State h adv)
  = Ok tt (State (added e status h) adv).
Proof. done. Qed.

Lemma added_same_but e status h : same_but e written h (added e status h).
Proof.
  unfold added.
  eapply same_but_trans; [|eapply same_but_weaken; [|apply same_but_write]].
  eapply same_but_trans; [|eapply same_but_weaken; [|apply same_but_write]].
  eapply same_but_weaken; [|apply same_but_write].
  all: unfold written; naive_solver.
Qed.

Lemma added_fields e status h :
  is_Some (h !! e) →
  get (added e status h) e "status" = VNum status
  ∧ get (added e status h) e "statusCode" = VNum status
  ∧ get (added e status h) e "expose" = VBool (status <? 500)%Z.
Proof.
  intros He. unfold added.
  assert (∀ k v h', is_Some (h' !! e) → is_Some (write e k v h' !! e)) as Hkeep.
  { intros k v h' ?. apply lookup_lt_is_Some. rewrite write_length.
    by apply lookup_lt_is_Some. }
  split_and!.
  - apply get_write_eq; eauto.
  - rewrite get_write_ne by done. apply get_write_eq; eauto.
  - rewrite !get_write_ne by done. by apply get_write_eq.
Qed.

Lemma copy_keys_run e props keys h adv :
  ∃ hf, copy_keys (VRef e) props keys (State h adv) = Ok tt (State hf adv)
      ∧ same_but e (copied keys) h hf.
Proof.
  revert h. induction keys as [|key keys IH]; intros h.
  { exists h. split; [done|apply same_but_refl]. }
  simpl.
  destruct (negb (key =? "status")%string && negb (key =? "statusCode")%string)
    eqn:Hkey.
  - rewrite (bind_step _ _ _ tt
               (State (write e key (get_v h props key) h) adv)) by done.
    destruct (IH (write e key (get_v h props key) h)) as (hf & Hrun & Hsame).
    exists hf. split; [done|].
    eapply same_but_trans.
    + eapply same_but_weaken; [|apply same_but_write].
      intros k ->. apply andb_prop in Hkey as [H1 H2].
      apply negb_true_iff, String.eqb_neq in H1, H2.
      split_and!; [apply elem_of_cons; by left|done..].
    + eapply same_but_weaken; [|exact Hsame].
      intros k (? & ? & ?). split_and!; [apply elem_of_cons; by right|done..].
  - rewrite (bind_step _ _ _ tt (State h adv)) by done.
    destruct (IH h) as (hf & Hrun & Hsame).
    exists hf. split; [done|].
    eapply same_but_weaken; [|exact Hsame].
    intros k (? & ? & ?). split_and!; [apply elem_of_cons; by right|done..].
Qed.

Lemma copy_props_run e props h adv :
  ∃ hf, copy_props (VRef e) props (State h adv) = Ok tt (State hf adv)
      ∧ same_but e (copied (forin_keys h props)) h hf.
Proof.
  unfold copy_props, bind. simpl. apply copy_keys_run.
Qed.

Lemma advise_run h adv status :
  advise status (State h adv) = Ok tt (State h (adv ++ advisories_of status)).
Proof.
  unfold advise, advisories_of, deprecate, ret.
  destruct status; rewrite ?app_nil_r; try done.
  destruct (out_of_range n); by rewrite ?app_nil_r.
Qed.

(** ** The whole of [build] *)

Lemma obtained_is_Some h vs status K e h1 :
  obtained h vs status K e h1 → is_Some (h1 !! e).
Proof.
  intros [e' _ ?|f code phrase _ _ _ _|_ _]; [done| |];
    (rewrite lookup_app_r, Nat.sub_diag by done; by eexists).
Qed.

Lemma obtained_extends h vs status K e h1 :
  obtained h vs status K e h1 → ∃ ext, h1 = h ++ ext.
Proof.
  intros [e' _ ?|f code phrase _ _ _ _|_ _]; [exists []; by rewrite app_nil_r|..];
    by eexists.
Qed.

Lemma build_run seen h adv vs :
  populated seen h →
  (v_err vs = VUndefined ∨ ∃ e, v_err vs = VRef e ∧ is_Some (h !! e)) →
  let status := validate table (v_status vs) in
  let K := kind_selected h status in
  ∃ e h1 hf,
    build table createError_obj vs (State h adv)
    = Ok (VRef e) (State hf (adv ++ advisories_of (v_status vs)))
    ∧ obtained h vs status K e h1
    ∧ same_but e
        (copied (forin_keys (normalised h1 e status K) (v_props vs)))
        (normalised h1 e status K) hf
    ∧ copy_props (VRef e) (v_props vs)
        (State (normalised h1 e status K) (adv ++ advisories_of (v_status vs)))
      = Ok tt (State hf (adv ++ advisories_of (v_status vs))).
Proof.
  intros Hpop Herr status K. unfold build.
  erewrite bind_step by apply advise_run.
  destruct (select_kind_run _ h (adv ++ advisories_of (v_status vs)) status Hpop)
    as [Hsel HK].
  fold status. erewrite bind_step by exact Hsel. fold K in HK |- *.
  set (adv' := adv ++ advisories_of (v_status vs)).
  assert (∃ e h1,
    obtain_error table vs status K (State h adv') = Ok (VRef e) (State h1 adv')
    ∧ obtained h vs status K e h1) as (e & h1 & Hobtain & Hobtained).
  { unfold obtain_error. destruct Herr as [Hnone|(e & Hsome & He)].
    - rewrite Hnone. simpl. destruct HK as [HK|[code Hkind]].
      + rewrite HK. simpl. unfold new_Error.
        erewrite bind_step by reflexivity. do 2 eexists. split; [done|].
        by apply obtained_generic.
      + pose proof (is_kind_call _ _ _ Hkind) as (f & ? & Hf & _).
        rewrite Hf in *. simpl.
        destruct (construct_kind_run h adv' f code (v_msg vs) Hkind)
          as (phrase & Hphrase & Hrun).
        do 2 eexists. split; [exact Hrun|]. by eapply obtained_kind.
    - rewrite Hsome. simpl. do 2 eexists. split; [done|].
      by apply obtained_adopted. }
  erewrite bind_step by exact Hobtain.
  assert (K = VUndefined ∨ ∃ code, is_kind h1 K code) as HK1.
  { destruct HK as [?|[code ?]]; [by left|right]. exists code.
    destruct (obtained_extends _ _ _ _ _ _ Hobtained) as [ext ->].
    by apply is_kind_app. }
  erewrite bind_step by (by apply is_generic_run).
  rewrite (bind_step _ _ _ tt (State (normalised h1 e status K) adv'))
    by (unfold normalised; by destruct (generic_of h1 e status K)).
  destruct (copy_props_run e (v_props vs) (normalised h1 e status K) adv')
    as (hf & Hcopy & Hsame).
  erewrite bind_step by exact Hcopy.
  by exists e, h1, hf.
Qed.

(** The status of the result is the validated status, whatever the
    arguments were. *)
Lemma build_status h vs status K e h1 hf :
  obtained h vs status K e h1 →
  same_but e (copied (forin_keys (normalised h1 e status K) (v_props vs)))
    (normalised h1 e status K) hf →
  get hf e "status" = VNum status.
Proof.
  intros Hobt Hsame.
  rewrite (same_but_get _ _ _ _ _ _ Hsame) by (by intros (_ & ? & _)).
  unfold normalised. destruct (generic_of h1 e status K) eqn:Hgen.
  - apply added_fields. by eapply obtained_is_Some.
  - unfold generic_of in Hgen. destruct K; try done.
    apply orb_false_elim in Hgen as [_ Heq].
    apply negb_false_iff, bool_decide_eq_true in Heq. done.
Qed.

(** ** The argument loop *)

Lemma typeof_app h ext v : closed h v → typeof (h ++ ext) v = typeof h v.
Proof. destruct v; try done. simpl. intros. by rewrite lookup_app_l. Qed.

Lemma is_error_app h ext v : closed h v → is_error (h ++ ext) v = is_error h v.
Proof. destruct v; try done. simpl. intros. by apply has_ancestor_app. Qed.

Lemma get_v_app h ext v k : closed h v → get_v (h ++ ext) v k = get_v h v k.
Proof. destruct v; try done. simpl. intros. by apply get_app. Qed.

Lemma resolve_args_app h ext i args vs :
  Forall (closed h) args →
  resolve_args (h ++ ext) i args vs = resolve_args h i args vs.
Proof.
  intros Hargs. revert i vs.
  induction Hargs as [|arg args Harg _ IH]; intros i vs; simpl; [done|].
  rewrite typeof_app, is_error_app, !get_v_app by done.
  by rewrite !IH.
Qed.

Lemma resolve_run h adv args :
  Forall (closed h) args →
  resolve args (State h adv)
  = match resolve_args h 0 args (first_vars h) with
    | inr vs => Ok vs (State (h ++ [empty_object]) adv)
    | inl e => Throw e
    end.
Proof.
  intros Hargs. unfold resolve, bind. simpl.
  by rewrite resolve_args_app.
Qed.

Lemma is_error_is_Some h v :
  is_error h v = true → ∃ e, v = VRef e ∧ is_Some (h !! e).
Proof.
  destruct v as [| | | | | | |e]; try done. simpl. intros He. exists e.
  split; [done|]. rewrite has_ancestor_unfold in He.
  destruct (h !! e); [by eexists|done].
Qed.

Lemma resolve_args_err_ok h i args vs vs' :
  resolve_args h i args vs = inr vs' → err_ok h vs → err_ok h vs'.
Proof.
  revert i vs. induction args as [|arg args IH]; intros i vs; simpl.
  { by intros [= <-]. }
  intros Hres Hok. repeat case_match; try done; (eapply IH; [exact Hres|]);
    try exact Hok.
  right. simpl. apply is_error_is_Some.
  by match goal with H : _ && _ = true |- _ => apply andb_prop in H as [_ ?] end.
Qed.

(** ** Reading the object of [props] *)

Lemma same_but_forin_apart e W h h' p :
  same_but e W h h' → e ∉ chain h p →
  forin_keys h' (VRef p) = forin_keys h (VRef p).
Proof.
  intros Hsame He. simpl. rewrite (same_but_chain _ _ _ _ _ Hsame).
  f_equal. induction (chain h p) as [|x xs IH]; [done|].
  simpl. rewrite IH by (intros ?; apply He, elem_of_cons; by right).
  f_equal. unfold props_of.
  rewrite (same_but_lookup_ne _ _ _ _ _ Hsame); [done|].
  intros ->. apply He, elem_of_cons. by left.
Qed.

Lemma forin_keys_app h ext p :
  p < List.length h → forin_keys (h ++ ext) (VRef p) = forin_keys h (VRef p).
Proof.
  intros Hp. simpl. rewrite chain_app by done. f_equal.
  assert (∀ x, x ∈ chain h p → x < List.length h) as Hbound.
  { intros x [? _]%chain_bound. lia. }
  induction (chain h p) as [|x xs IH]; [done|]. simpl.
  rewrite IH by (intros; apply Hbound, elem_of_cons; by right).
  rewrite props_of_app; [done|]. apply Hbound, elem_of_cons. by left.
Qed.

Lemma forin_keys_empty_object h :
  h !! ObjectPrototype = Some (Obj None None []) →
  forin_keys (h ++ [empty_object]) (VRef (List.length h)) = [].
Proof.
  intros H0. assert (0 < List.length h) by (by apply lookup_lt_Some in H0).
  simpl. rewrite <- (Nat.add_0_r (List.length h)) at 1. rewrite chain_tail. simpl.
  rewrite decide_True by (unfold ObjectPrototype; lia).
  rewrite props_of_tail. simpl.
  rewrite chain_unfold, H0. simpl.
  unfold props_of. rewrite lookup_app_l by (unfold ObjectPrototype; lia).
  by rewrite H0.
Qed.

(** ** The whole of [createError] *)

Lemma createError_run seen h adv args vs :
  populated seen h → Forall (closed h) args →
  resolve_args h 0 args (first_vars h) = inr vs →
  let h0 := h ++ [empty_object] in
  let status := validate table (v_status vs) in
  let K := kind_selected h0 status in
  ∃ e h1 hf,
    createError table createError_obj args (State h adv)
    = Ok (VRef e) (State hf (adv ++ advisories_of (v_status vs)))
    ∧ obtained h0 vs status K e h1
    ∧ same_but e
        (copied (forin_keys (normalised h1 e status K) (v_props vs)))
        (normalised h1 e status K) hf
    ∧ copy_props (VRef e) (v_props vs)
        (State (normalised h1 e status K) (adv ++ advisories_of (v_status vs)))
      = Ok tt (State hf (adv ++ advisories_of (v_status vs))).
Proof.
  intros Hpop Hargs Hres h0 status K. unfold createError.
  erewrite bind_step by (rewrite resolve_run, Hres; done).
  apply (build_run seen); [by apply populated_app|].
  assert (err_ok h vs) as [?|(e & ? & ?)].
  { eapply resolve_args_err_ok; [exact Hres|]. by left. }
  - by left.
  - right. exists e. split; [done|]. unfold h0.
    destruct (h !! e) as [o|] eqn:He; [|by destruct H0].
    rewrite (lookup_app_l_Some _ _ _ _ He). by eexists.
Qed.

Lemma createError_throws h adv args ex :
  Forall (closed h) args →
  resolve_args h 0 args (first_vars h) = inl ex →
  createError table createError_obj args (State h adv) = Throw ex.
Proof.
  intros Hargs Hres. unfold createError.
  apply bind_throw. by rewrite resolve_run, Hres.
Qed.

(** Without an object argument nothing is copied onto the result. *)
Lemma nothing_copied seen h vs status K e h1 :
  populated seen h →
  obtained (h ++ [empty_object]) vs status K e h1 →
  e ≠ List.length h → e ≠ ObjectPrototype →
  forin_keys (normalised h1 e status K) (VRef (List.length h)) = [].
Proof.
  intros Hpop Hobt He1 He2.
  pose proof (base_Object _ (pop_base _ _ Hpop)) as H0.
  destruct (obtained_extends _ _ _ _ _ _ Hobt) as [ext ->].
  assert (List.length h < List.length (h ++ [empty_object])) as Hlt
    by (rewrite length_app; simpl; lia).
  assert (chain ((h ++ [empty_object]) ++ ext) (List.length h)
          = [List.length h; ObjectPrototype]) as Hchain.
  { rewrite chain_app by done.
    rewrite <- (Nat.add_0_r (List.length h)) at 1. rewrite chain_tail. simpl.
    assert (0 < List.length h) by (by apply lookup_lt_Some in H0).
    rewrite decide_True by (unfold ObjectPrototype; lia).
    by rewrite chain_unfold, H0, Nat.add_0_r. }
  assert (forin_keys ((h ++ [empty_object]) ++ ext) (VRef (List.length h)) = [])
    as Hkeys.
  { rewrite forin_keys_app by done. by apply forin_keys_empty_object. }
  unfold normalised. destruct (generic_of _ _ _ _); [|done].
  rewrite (same_but_forin_apart _ _ _ _ _ (added_same_but e status _)); [done|].
  rewrite Hchain. intros [?|[?|?%elem_of_nil]%elem_of_cons]%elem_of_cons; done.
Qed.

Lemma same_but_nothing e h h' l k :
  same_but e (copied []) h h' → get h' l k = get h l k.
Proof.
  intros Hsame. apply (same_but_get _ _ _ _ _ _ Hsame).
  by intros [?%elem_of_nil _].
Qed.

(** Reading a new error of a kind: what it does not own comes from the
    prototype of the kind. *)
Lemma kind_error_get h f code className m k :
  is_kind h (VRef f) code → k ≠ "message" → k ≠ "name" →
  get (h ++ [kind_error f className m]) (List.length h) k = get h (S f) k.
Proof.
  intros Hkind ??. rewrite get_first. simpl.
  rewrite !decide_False by done.
  by rewrite decide_True by (by eapply is_kind_bound).
Qed.

Lemma validate_range n :
  (400 ≤ n < 600)%Z → validate table (VNum n) = n.
Proof.
  intros Hn. simpl. unfold out_of_range.
  rewrite (proj2 (Z.ltb_ge n 400)), (proj2 (Z.leb_gt 600 n)) by lia.
  by rewrite andb_false_r.
Qed.

(** * The claims *)

(** C1.  For every status code [c] of the registry with
    [400 <= c <= 599], [createError(c)] returns a value whose [status]
    and [statusCode] are [c] and whose [expose] is [c < 500]. *)
Theorem createError_known_status (s : state) (c : Z) :
  loaded_in s →
  c ∈ statuses_codes table → (400 ≤ c ≤ 599)%Z →
  ∃ r s',
    createError table createError_obj [VNum c] s = Ok (VRef r) s'
    ∧ get (st_heap s') r "status" = VNum c
    ∧ get (st_heap s') r "statusCode" = VNum c
    ∧ get (st_heap s') r "expose" = VBool (c <? 500)%Z.
Proof.
  intros Hpop%loaded_in_populated Hc Hrange. destruct s as [h adv]. simpl in *.
  destruct (createError_run _ h adv [VNum c]
              (Vars VUndefined VUndefined (VNum c) (VRef (List.length h))) Hpop)
    as (e & h1 & hf & Hrun & Hobt & Hsame & Hcopy).
  { by repeat constructor. }
  { done. }
  assert (validate table (VNum c) = c) as Hval by (apply validate_range; lia).
  cbn [v_status v_props v_err v_msg] in Hrun, Hobt, Hsame. rewrite Hval in *.
  exists e, (State hf (adv ++ advisories_of (VNum c))).
  split; [done|]. simpl.
  pose proof (build_status _ _ _ _ _ _ _ Hobt Hsame) as Hstatus.
  split; [done|].
  assert (e = S (List.length h)) as He.
  { inversion Hobt; subst; try done; rewrite length_app; simpl; lia. }
  rewrite (nothing_copied _ _ _ _ _ _ _ Hpop Hobt) in Hsame
    by (unfold ObjectPrototype; lia).
  rewrite !(same_but_nothing _ _ _ _ _ Hsame) in *.
  unfold normalised in *.
  destruct (generic_of h1 e c _) eqn:Hgen.
  { pose proof (added_fields e c h1 (obtained_is_Some _ _ _ _ _ _ Hobt))
      as (_ & ? & ?). done. }
  inversion Hobt as [e' Herr|f code phrase _ HK Hkind Hphrase Hlen Hh1|_ HK];
    subst; [done| |by rewrite HK in Hgen].
  rewrite HK in Hkind.
  rewrite !(kind_error_get _ _ _ _ _ _ Hkind) in * by done.
  destruct (is_kind_fields _ _ _ Hkind) as (Hs & Hsc & Hex).
  rewrite Hs in Hstatus. injection Hstatus as ->.
  rewrite Hsc, Hex. split; [done|].
  rewrite codeClass_range by lia. unfold class_of_range.
  by destruct (c <? 500)%Z.
Qed.

Lemma error_value_ref h v :
  error_value h v →
  ∃ e, v = VRef e ∧ is_Some (h !! e) ∧ ErrorPrototype < e
       ∧ e < List.length h.
Proof.
  intros [_ Herr]. destruct (is_error_is_Some _ _ Herr) as (e & -> & He).
  exists e. split_and!; [done..| |by apply lookup_lt_is_Some].
  simpl in Herr. unfold has_ancestor in Herr.
  apply bool_decide_eq_true in Herr. by apply chain_tail_bound in Herr.
Qed.


(** ** More on the argument loop *)




(** ** Arguments that the loop accepts *)





Lemma out_of_range_spec n : out_of_range n = false ↔ (400 ≤ n < 600)%Z.
Proof.
  unfold out_of_range. rewrite orb_false_iff, Z.ltb_ge, Z.leb_gt. lia.
Qed.



(** ** The kind selected for a status, when identifiers are not numerals *)

Lemma is_kind_inj h v code code' :
  is_kind h v code → is_kind h v code' → code = code'.
Proof.
  intros (f & p & -> & _ & _ & _ & Hf & Hp) (f' & p' & [= <-] & _ & _ & _ & _ & Hp').
  rewrite Hp in Hp'. by injection Hp'.
Qed.

Lemma has_kind_known code : has_kind code = true → code ∈ statuses_codes table.
Proof. unfold has_kind. by intros [?%bool_decide_eq_true _]%andb_prop. Qed.

Lemma validate_cases v :
  validate table v ∈ statuses_codes table
  ∨ (400 ≤ validate table v < 600)%Z.
Proof.
  destruct v; simpl; try (right; lia). unfold known.
  destruct (out_of_range n) eqn:Hout.
  - case_bool_decide; simpl; [by left|right; lia].
  - rewrite andb_false_r. right. by apply out_of_range_spec.
Qed.

Lemma kind_selected_exact seen h status :
  populated seen h → names_not_numerals →
  (∀ n, n ∈ seen ↔ n ∈ statuses_codes table) →
  (has_kind status = true → is_kind h (kind_selected h status) status)
  ∧ (has_kind status = false → has_kind (codeClass status) = true →
       is_kind h (kind_selected h status) (codeClass status))
  ∧ (has_kind status = false → has_kind (codeClass status) = false →
       kind_selected h status = VUndefined).
Proof.
  intros Hpop H1 Hseen. unfold kind_selected, or_else.
  assert (∀ n, if has_kind n
               then is_kind h (get h createError_obj (String_ n)) n
               else get h createError_obj (String_ n) = VUndefined) as Hcode.
  { intros n. pose proof (pop_code _ _ Hpop H1 n) as Hn.
    destruct (has_kind n) eqn:Hk; simpl in Hn; [|done].
    rewrite bool_decide_true in Hn; [done|]. by apply Hseen, has_kind_known. }
  pose proof (Hcode status) as Hexact.
  pose proof (Hcode (codeClass status)) as Hclass.
  split_and!.
  - intros Hk. rewrite Hk in Hexact. destruct Hexact as (f & p & Heq & ?).
    rewrite Heq. simpl. rewrite <- Heq. by exists f, p.
  - intros Hk Hk'. rewrite Hk in Hexact. rewrite Hk' in Hclass.
    by rewrite Hexact.
  - intros Hk Hk'. rewrite Hk in Hexact. rewrite Hk' in Hclass.
    by rewrite Hexact.
Qed.

(** ** The message and the extra properties after the loop *)

Lemma typeof_string h v : String.eqb (typeof h v) "string" = is_string v.
Proof. destruct v; try done. simpl. by destruct (h !! l ≫= o_call). Qed.

Lemma typeof_string_not_object h v :
  is_string v = true → String.eqb (typeof h v) "object" = false
                      ∧ String.eqb (typeof h v) "number" = false.
Proof. by destruct v. Qed.

(** [msg] is the last string among the arguments. *)
Lemma resolve_args_msg h i args vs vs' :
  resolve_args h i args vs = inr vs' →
  v_msg vs' = default (v_msg vs) (last (List.filter is_string args)).
Proof.
  revert i vs. induction args as [|arg args IH]; intros i vs; simpl.
  { by intros [= <-]. }
  destruct (is_string arg) eqn:Hstr.
  - destruct (typeof_string_not_object h arg Hstr) as [-> ->].
    rewrite typeof_string, Hstr. simpl. intros Hres%IH. rewrite Hres. simpl.
    rewrite last_cons. by destruct (last (List.filter is_string args)).
  - rewrite typeof_string, Hstr.
    repeat case_match; try done; intros Hres%IH; by rewrite Hres.
Qed.

(** [props] is the object created at line 242 or one of the arguments. *)
Lemma resolve_args_props h i args vs vs' :
  resolve_args h i args vs = inr vs' →
  v_props vs' = v_props vs ∨ v_props vs' ∈ args.
Proof.
  revert i vs. induction args as [|arg args IH]; intros i vs; simpl.
  { intros [= <-]. by left. }
  repeat case_match; try done; intros [Hres|Hres]%IH; simpl in *;
    rewrite ?Hres; auto; right; apply elem_of_cons; auto.
Qed.

(** The keys copied onto a new error are those of [props] as the caller
    passed it. *)
Lemma forin_keys_new_error seen h vs status K e h1 p :
  populated seen h →
  obtained (h ++ [empty_object]) vs status K e h1 →
  v_err vs = VUndefined →
  p < List.length h →
  forin_keys (normalised h1 e status K) (VRef p) = forin_keys h (VRef p).
Proof.
  intros Hpop Hobt Herr Hp.
  assert (e = S (List.length h)) as ->.
  { inversion Hobt; subst; try congruence; rewrite length_app; simpl; lia. }
  destruct (obtained_extends _ _ _ _ _ _ Hobt) as [ext ->].
  assert (forin_keys ((h ++ [empty_object]) ++ ext) (VRef p)
          = forin_keys h (VRef p)) as Hkeys.
  { rewrite <- app_assoc. by apply forin_keys_app. }
  unfold normalised. destruct (generic_of _ _ _ _); [|done].
  rewrite (same_but_forin_apart _ _ _ _ _ (added_same_but _ status _)); [done|].
  intros [? _]%chain_bound. lia.
Qed.

(** C8, as the code has it.  When no error value is adopted and the
    object argument has no [message] key, the message of the result is
    the last string argument if there is one; otherwise it is the reason
    phrase of the resolved status when that status is a known code, and
    the reason phrase of its status class (400 or 500) when it is not. *)
Theorem createError_message (s : state) (args : list value) (vs : vars) :
  loaded_in s → names_not_numerals →
  Forall (closed (st_heap s)) args →
  resolve_args (st_heap s) 0 args (first_vars (st_heap s)) = inr vs →
  v_err vs = VUndefined →
  "message" ∉ forin_keys (st_heap s) (v_props vs) →
  let status := validate table (v_status vs) in
  status ∈ statuses_codes table ∨ codeClass status ∈ statuses_codes table →
  ∃ r s',
    createError table createError_obj args s = Ok (VRef r) s'
    ∧ v_msg vs = default VUndefined (last (List.filter is_string args))
    ∧ get (st_heap s') r "message"
      = if is_string (v_msg vs) then v_msg vs
        else if known table status then statuses_message table status
        else statuses_message table (codeClass status).
Proof.
  intros Hpop%loaded_in_populated H1 Hargs Hvs Herr Hkeys status Hknown.
  destruct s as [h adv]. simpl in *.
  destruct (createError_run _ h adv args vs Hpop Hargs Hvs)
    as (e & h1 & hf & Hrun & Hobt & Hsame & Hcopy).
  fold status in Hobt, Hsame.
  pose proof (resolve_args_msg _ _ _ _ _ Hvs) as Hmsg. simpl in Hmsg.
  exists e. eexists. split; [exact Hrun|]. split; [done|]. simpl.
  assert (e = S (List.length h)) as He.
  { inversion Hobt; subst; try congruence; rewrite length_app; simpl; lia. }
  (* the copy loop does not write [message] *)
  assert (¬ copied (forin_keys (normalised h1 e status
                                  (kind_selected (h ++ [empty_object]) status))
                      (v_props vs)) "message") as Hnot.
  { intros [Hin _].
    destruct (resolve_args_props _ _ _ _ _ Hvs) as [Hp|Hp]; simpl in Hp.
    - rewrite Hp in Hin.
      rewrite (nothing_copied _ _ _ _ _ _ _ Hpop Hobt) in Hin
        by (unfold ObjectPrototype; lia).
      by apply elem_of_nil in Hin.
    - rewrite Forall_forall in Hargs. specialize (Hargs _ Hp).
      destruct (v_props vs) as [| | | | | | |p] eqn:Hprops;
        try (by apply elem_of_nil in Hin).
      rewrite (forin_keys_new_error _ _ _ _ _ _ _ _ Hpop Hobt Herr Hargs) in Hin.
      done. }
  rewrite (same_but_get _ _ _ _ _ _ Hsame) by done.
  assert (get (normalised h1 e status
                 (kind_selected (h ++ [empty_object]) status)) e "message"
          = get h1 e "message") as ->.
  { unfold normalised. destruct (generic_of _ _ _ _); [|done].
    apply (same_but_get _ _ _ _ _ _ (added_same_but e status h1)).
    unfold written. naive_solver. }
  (* the message of the new error *)
  assert (v_msg vs = VUndefined ∨ is_string (v_msg vs) = true) as Hshape.
  { rewrite Hmsg. destruct (last _) as [m|] eqn:Hlast; [right|by left].
    simpl. apply last_Some_elem_of, list_elem_of_In, filter_In in Hlast.
    by destruct Hlast. }
  destruct (kind_selected_exact _ _ status
              (populated_app _ _ [empty_object] Hpop) H1 ltac:(done))
    as (Hexact1 & Hexact2 & Hexact3).
  inversion Hobt as [e0 Heq He0 Hlen Hh1
                    |f code phrase Hu HK Hkind Hphrase Hlen Hh1
                    |Hu HK Hlen Hh1]; subst h1; [congruence| |].
  - (* a new error of the selected kind *)
    rewrite get_first. simpl.
    assert (statuses_message table code = VStr phrase) as Hcode
      by (unfold statuses_message; by rewrite Hphrase).
    assert ((if known table status then statuses_message table status
             else statuses_message table (codeClass status))
            = VStr phrase) as ->.
    { destruct (has_kind status) eqn:Hk.
      - rewrite (is_kind_inj _ _ _ _ Hkind (Hexact1 eq_refl)) in Hcode.
        unfold known. by rewrite bool_decide_true by (by apply has_kind_known).
      - destruct (has_kind (codeClass status)) eqn:Hk';
          [|by rewrite Hexact3 in HK].
        rewrite (is_kind_inj _ _ _ _ Hkind (Hexact2 eq_refl eq_refl)) in Hcode.
        unfold known. rewrite bool_decide_false; [done|]. intros Hin.
        apply has_kind_class in Hk'. rewrite codeClass_idem in Hk'.
        unfold has_kind in Hk. by rewrite bool_decide_true, Hk' in Hk. }
    destruct Hshape as [->|Hstr]; [done|]. rewrite Hstr.
    by destruct (v_msg vs).
  - (* a new generic error *)
    rewrite get_first.
    destruct Hshape as [Hnone|Hstr].
    + rewrite Hnone. simpl.
      destruct (has_kind status) eqn:Hk;
        [by destruct (Hexact1 eq_refl) as (? & ? & ? & _); congruence|].
      destruct (has_kind (codeClass status)) eqn:Hk';
        [by destruct (Hexact2 eq_refl eq_refl) as (? & ? & ? & _); congruence|].
      assert (status ∈ statuses_codes table) as Hin.
      { destruct Hknown as [?|Hclass]; [done|].
        destruct (validate_cases (v_status vs)) as [?|Hrange]; [done|].
        fold status in Hrange. exfalso.
        unfold has_kind in Hk'. rewrite bool_decide_true in Hk' by done.
        rewrite codeClass_idem, codeClass_range in Hk' by done.
        unfold class_of_range in Hk'. by destruct (status <? 500)%Z. }
      unfold known. rewrite bool_decide_true by done.
      apply phrase_in_codes in Hin as [phrase Hphrase].
      unfold statuses_message. rewrite Hphrase. done.
    + rewrite Hstr. destruct (v_msg vs); done.
Qed.

(** ** Object arguments *)




Lemma plain_app h ext v : closed h v → plain h v → plain (h ++ ext) v.
Proof. intros ? [??]. split; by rewrite ?typeof_app, ?is_error_app. Qed.

(** ** What the copy loop leaves on the result *)

Lemma chain_suffix h l x :
  x ∈ chain h l → ∃ before, chain h l = before ++ chain h x.
Proof.
  induction (lt_wf l) as [l _ IH]. intros Hx.
  destruct (decide (x = l)) as [->|Hne]; [by exists []|].
  rewrite chain_unfold in Hx |- *.
  destruct (h !! l) as [o|]; [|by apply elem_of_nil in Hx].
  apply elem_of_cons in Hx as [?|Hx]; [done|].
  destruct (o_proto o) as [q|]; [|by apply elem_of_nil in Hx].
  destruct (decide (q < l)); [|by apply elem_of_nil in Hx].
  destruct (IH q ltac:(done) Hx) as [before ->].
  by exists (l :: before).
Qed.

(** An object that inherits from an error value is an error value. *)
Lemma is_error_inherited h e p :
  is_error h (VRef e) = true → e ∈ chain h p → is_error h (VRef p) = true.
Proof.
  simpl. unfold has_ancestor. intros He%bool_decide_eq_true Hin.
  apply bool_decide_eq_true.
  destruct (chain_suffix _ _ _ Hin) as [before ->].
  destruct (chain h e) as [|x xs]; [by apply elem_of_nil in He|]. simpl in He.
  destruct before; simpl; [done|]. apply elem_of_app. right.
  apply elem_of_cons. by right.
Qed.






(** * Further properties of the module *)

(** ** The status class *)



(** ** Class names *)

Lemma substring_all s : substring 0 (String.length s) s = s.
Proof. induction s as [|a s IH]; simpl; [done|by rewrite IH]. Qed.

Lemma slice_last_app s t : slice_last (String.length t) (s +:+ t) = t.
Proof.
  unfold slice_last.
  assert (String.length (s +:+ t) = String.length s + String.length t) as ->
    by (induction s as [|a s IH]; simpl; [done|by rewrite IH]).
  replace (String.length s + String.length t - String.length t)
    with (String.length s) by lia.
  induction s as [|a s IH]; simpl; [apply substring_all|done].
Qed.

(** [toClassName] yields a name that ends in ["Error"], and applying it
    twice is applying it once: a name that already ends in ["Error"] gets
    no second suffix. *)
Theorem toClassName_suffix name :
  slice_last 5 (toClassName name) = "Error"
  ∧ toClassName (toClassName name) = toClassName name.
Proof.
  unfold toClassName.
  destruct (String.eqb (slice_last 5 name) "Error") eqn:Hname; simpl.
  - rewrite Hname. simpl. by apply String.eqb_eq in Hname.
  - pose proof (slice_last_app name "Error") as Hlast. simpl in Hlast.
    rewrite Hlast. done.
Qed.

(** ** What the population of the registry leaves alone *)

Lemma forEachCode_frame h adv code h' :
  base_ok h → code ∈ statuses_codes table →
  forEachCode table toIdentifier createError_obj (VRef HttpError_obj) code
    (State h adv) = Ok tt (State h' adv) →
  base_ok h'
  ∧ (∀ l, l ≠ createError_obj → l < List.length h → h' !! l = h !! l)
  ∧ (∀ k, numeral_head k = false →
       (∀ phrase, has_kind code = true → phrase_in table code = Some phrase →
          toIdentifier phrase ≠ k) →
       get h' createError_obj k = get h createError_obj k).
Proof.
  intros Hbase Hin Hrun. pose proof (base_ok_length _ Hbase) as Hlen.
  destruct (forEachCode_run h adv code Hbase Hin) as (phrase & Hphrase & Hrun').
  rewrite Hrun in Hrun'. injection Hrun' as ->.
  destruct (has_kind code) eqn:Hkind; [|done].
  split_and!.
  - apply base_ok_app. unfold write.
    by do 2 (apply base_ok_alter; [apply createError_obj_apart|]).
  - intros l Hl Hlt. rewrite lookup_app_l by (by rewrite !write_length).
    unfold write. by rewrite !list_lookup_alter_ne.
  - intros k Hk Hname.
    rewrite get_app by (rewrite !write_length; unfold createError_obj; lia).
    rewrite get_write_ne by (by apply Hname).
    rewrite get_write_ne by (by apply String_not_name). done.
Qed.

Lemma populateConstructorExports_frame codes h adv h' :
  base_ok h → (∀ c, c ∈ codes → c ∈ statuses_codes table) →
  populateConstructorExports table toIdentifier createError_obj codes
    (VRef HttpError_obj) (State h adv) = Ok tt (State h' adv) →
  (∀ l, l ≠ createError_obj → l < List.length h → h' !! l = h !! l)
  ∧ (∀ k, numeral_head k = false →
       (∀ code phrase, has_kind code = true →
          phrase_in table code = Some phrase → toIdentifier phrase ≠ k) →
       get h' createError_obj k = get h createError_obj k).
Proof.
  revert h. induction codes as [|code codes IH]; intros h Hbase Hin; simpl.
  { by intros [= <-]. }
  intros Hrun. apply bind_Ok in Hrun as ([] & [h1 adv1] & Hrun1 & Hrun2).
  assert (code ∈ statuses_codes table) as Hcode
    by (apply Hin, elem_of_cons; by left).
  destruct (forEachCode_run h adv code Hbase Hcode) as (phrase & _ & Hrun1').
  assert (adv1 = adv) as -> by (rewrite Hrun1 in Hrun1'; by injection Hrun1').
  destruct (forEachCode_frame _ _ _ _ Hbase Hcode Hrun1)
    as (Hbase1 & Hframe1 & Hget1).
  destruct (IH h1 Hbase1) as (Hframe2 & Hget2); [|done|].
  { intros c ?. apply Hin, elem_of_cons. by right. }
  assert (List.length h ≤ List.length h1) as Hle.
  { rewrite Hrun1 in Hrun1'. injection Hrun1' as ->.
    destruct (has_kind code); [|done].
    rewrite length_app, !write_length. lia. }
  split.
  - intros l Hl Hlt. rewrite Hframe2 by (done || lia). by apply Hframe1.
  - intros k Hk Hname. rewrite Hget2 by eauto. apply Hget1; eauto.
Qed.

(** The objects that lines 305 and 306 store in [createError] are still
    there when the module has run. *)
Lemma module_body_objects :
  names_unreserved →
  ∃ h,
    module_body table toIdentifier host_state = Ok createError_obj (State h [])
    ∧ populated (statuses_codes table) h
    ∧ get h module_exports "default" = VRef createError_obj
    ∧ get h createError_obj "HttpError" = VRef HttpError_obj
    ∧ get h createError_obj "isHttpError" = VRef 9
    ∧ h !! 9 ≫= o_call = Some (FnIsHttpError VUndefined).
Proof.
  intros Hnames. destruct module_body_run as (h & Hrun & Hpop).
  exists h. split; [exact Hrun|]. split; [exact Hpop|]. revert Hrun.
  unfold module_body, createHttpErrorConstructor, createIsHttpErrorFunction.
  do 7 (erewrite bind_step by (lazy; reflexivity)).
  match goal with
  | |- context [bind _ _ (State ?h0 _)] =>
      set (before := h0); assert (base_ok before) as Hbase by (by split)
  end.
  intros ([] & [h1 adv1] & Hrun & Hrest)%bind_Ok.
  injection Hrest as <- ->.
  destruct (populateConstructorExports_frame _ _ _ _ Hbase ltac:(done) Hrun)
    as (Hframe & Hget).
  assert (get h1 createError_obj "HttpError" = VRef HttpError_obj
          ∧ get h1 createError_obj "isHttpError" = VRef 9) as [Hmarker Htest].
  { rewrite !Hget; [done|done| |done|]; intros code phrase Hk Hp;
      by destruct (Hnames code phrase Hk Hp). }
  split_and!.
  - apply get_write_eq. rewrite Hframe by (vm_compute; lia). by eexists.
  - by rewrite get_write_ne.
  - by rewrite get_write_ne.
  - unfold write. rewrite list_lookup_alter_ne by done.
    by rewrite Hframe by (vm_compute; lia).
Qed.

(** Lines 305-311.  When no identifier of a kind is ["HttpError"] or
    ["isHttpError"], the module runs to its end without throwing and
    without an advisory, and the population of the registry leaves the
    two properties of lines 305 and 306 alone: [module.exports.default]
    is the function [createError], [createError.HttpError] is the
    abstract constructor and [createError.isHttpError] is a function. *)
Theorem module_body_wired :
  names_unreserved →
  ∃ h,
    module_body table toIdentifier host_state = Ok createError_obj (State h [])
    ∧ get h module_exports "default" = VRef createError_obj
    ∧ typeof h (VRef createError_obj) = "function"
    ∧ get h createError_obj "HttpError" = VRef HttpError_obj
    ∧ h !! HttpError_obj ≫= o_call = Some FnHttpError
    ∧ typeof h (get h createError_obj "isHttpError") = "function".
Proof.
  intros Hnames.
  destruct (module_body_objects Hnames)
    as (h & Hrun & Hpop & Hdefault & Hmarker & Htest & Hcall).
  exists h. split_and!; [done|done| |done| |].
  - destruct (pop_self _ _ Hpop) as [ps Hself]. unfold typeof. by rewrite Hself.
  - by rewrite (base_HttpError _ (pop_base _ _ Hpop)).
  - rewrite Htest. unfold typeof. by rewrite Hcall.
Qed.

Lemma loaded_in_objects s :
  loaded_in s → names_unreserved →
  get (st_heap s) createError_obj "HttpError" = VRef HttpError_obj
  ∧ get (st_heap s) createError_obj "isHttpError" = VRef 9
  ∧ st_heap s !! 9 ≫= o_call = Some (FnIsHttpError VUndefined).
Proof.
  intros (s0 & ext & Hrun & ->) Hnames.
  destruct (module_body_objects Hnames)
    as (h & Hrun' & Hpop & _ & Hmarker & Htest & Hcall).
  rewrite Hrun in Hrun'. injection Hrun' as ->. simpl.
  pose proof (base_ok_length _ (pop_base _ _ Hpop)) as Hlen.
  rewrite !get_app by (unfold createError_obj; lia).
  split_and!; [done..|].
  destruct (h !! 9) as [o|] eqn:Ho; [|done].
  by rewrite (lookup_app_l_Some _ _ _ _ Ho).
Qed.

Lemma loaded_in_marker s :
  loaded_in s → names_unreserved →
  get (st_heap s) createError_obj "HttpError" = VRef HttpError_obj.
Proof. intros Hloaded Hnames. by destruct (loaded_in_objects s). Qed.

(** ** The abstract constructor *)

(** Lines 45-53.  [new createError.HttpError(msg)] throws the TypeError
    ["cannot construct abstract class"], whatever the message. *)
Theorem HttpError_is_abstract s msg :
  loaded_in s → names_unreserved →
  construct table (get (st_heap s) createError_obj "HttpError") msg s
  = Throw (TypeError "cannot construct abstract class").
Proof.
  intros Hloaded Hnames. rewrite (loaded_in_marker _ Hloaded Hnames).
  apply loaded_in_populated in Hloaded as [[_ _ _ Hmarker _] _ _ _ _].
  unfold construct. by rewrite Hmarker.
Qed.

(** ** The arguments that the loop keeps *)

Lemma resolve_args_err_value h i args vs vs' :
  resolve_args h i args vs = inr vs' →
  v_err vs' = v_err vs ∨ (v_err vs' ∈ args ∧ error_value h (v_err vs')).
Proof.
  revert i vs. induction args as [|arg args IH]; intros i vs; simpl.
  { intros [= <-]. by left. }
  destruct (String.eqb (typeof h arg) "object" && is_error h arg) eqn:Herr.
  - apply andb_prop in Herr as [Htype%String.eqb_eq Herr].
    intros [Hres|[Hin Hres]]%IH; simpl in *; right.
    + rewrite Hres. split; [apply elem_of_cons; by left|done].
    + split; [apply elem_of_cons; by right|done].
  - repeat case_match; try done; intros [Hres|[Hin Hres]]%IH; simpl in *;
      rewrite ?Hres; auto; right; (split; [apply elem_of_cons; by right|done]).
Qed.

Lemma resolve_args_props_plain h i args vs vs' :
  resolve_args h i args vs = inr vs' →
  v_props vs' = v_props vs ∨ (v_props vs' ∈ args ∧ plain h (v_props vs')).
Proof.
  revert i vs. induction args as [|arg args IH]; intros i vs; simpl.
  { intros [= <-]. by left. }
  destruct (String.eqb (typeof h arg) "object") eqn:Htype; simpl.
  - apply String.eqb_eq in Htype.
    destruct (is_error h arg) eqn:Herr.
    + intros [Hres|[Hin Hres]]%IH; simpl in *; auto.
      right. split; [apply elem_of_cons; by right|done].
    + repeat case_match; try done; intros [Hres|[Hin Hres]]%IH; simpl in *;
        rewrite ?Hres; auto; right;
        first [split; [apply elem_of_cons; by right|done]
              |split; [apply elem_of_cons; by left|done]].
  - repeat case_match; try done; intros [Hres|[Hin Hres]]%IH; simpl in *;
      rewrite ?Hres; auto; right; (split; [apply elem_of_cons; by right|done]).
Qed.

(** The keys that the copy loop visits are those of a plain object
    argument, as the caller passed it. *)
Lemma props_keys_of_args seen h args vs status K e h1 :
  populated seen h → Forall (closed h) args →
  resolve_args h 0 args (first_vars h) = inr vs →
  obtained (h ++ [empty_object]) vs status K e h1 →
  forin_keys (normalised h1 e status K) (v_props vs) = []
  ∨ ∃ p, VRef p ∈ args ∧ plain h (VRef p) ∧ v_props vs = VRef p
         ∧ forin_keys (normalised h1 e status K) (v_props vs)
           = forin_keys h (VRef p).
Proof.
  intros Hpop Hargs Hvs Hobt.
  pose proof (base_ok_length _ (pop_base _ _ Hpop)) as Hlen.
  assert (v_err vs = VUndefined
          ∨ (h1 = h ++ [empty_object] ∧ v_err vs = VRef e
             ∧ error_value h (VRef e))) as Herr.
  { destruct (resolve_args_err_value _ _ _ _ _ Hvs) as [Hu|[_ Hev]];
      [by left|].
    inversion Hobt as [e0 Heq He0 Hlen0 Hh1| |]; subst; [|by left..].
    right. by rewrite <- Heq. }
  destruct (resolve_args_props_plain _ _ _ _ _ Hvs) as [Hp|[Hin Hplain]];
    [simpl in Hp|].
  - left. rewrite Hp. apply (nothing_copied _ _ _ _ _ _ _ Hpop Hobt).
    + destruct Herr as [Hu|(_ & _ & Hev)].
      * inversion Hobt; subst; try congruence; rewrite length_app; simpl; lia.
      * apply error_value_ref in Hev as (e' & [= <-] & _ & _ & ?). lia.
    + destruct Herr as [Hu|(_ & _ & Hev)].
      * inversion Hobt; subst; try congruence; rewrite length_app;
          unfold ObjectPrototype; simpl; lia.
      * apply error_value_ref in Hev as (e' & [= <-] & _ & ? & _).
        unfold ObjectPrototype, ErrorPrototype in *. lia.
  - destruct (v_props vs) as [| | | | | | |p] eqn:Hprops;
      try (by left); try (by destruct Hplain).
    right. exists p. split_and!; [done..|].
    rewrite Forall_forall in Hargs. pose proof (Hargs _ Hin) as Hlt.
    simpl in Hlt.
    destruct Herr as [Hu|(-> & He & Hev)].
    + by apply (forin_keys_new_error _ _ _ _ _ _ _ _ Hpop Hobt Hu).
    + assert (e ∉ chain (h ++ [empty_object]) p) as Hapart.
      { rewrite chain_app by done. intros Hchain.
        destruct Hev as [_ Hev]. destruct Hplain as [_ Hplain].
        by rewrite (is_error_inherited _ _ _ Hev Hchain) in Hplain. }
      unfold normalised. destruct (generic_of _ _ _ _).
      * rewrite (same_but_forin_apart _ _ _ _ _ (added_same_but _ status _))
          by done.
        by apply forin_keys_app.
      * by apply forin_keys_app.
Qed.

(** What a call of [createError] does to the store, in one statement:
    the error value [e] that lines 276-282 leave, the heap [h1] then, and
    the final heap [hf], which differs from [h1] in the properties of [e]
    that lines 286-287 and the copy loop write. *)
Lemma createError_result seen h adv args vs :
  populated seen h → Forall (closed h) args →
  resolve_args h 0 args (first_vars h) = inr vs →
  let h0 := h ++ [empty_object] in
  let status := validate table (v_status vs) in
  let K := kind_selected h0 status in
  ∃ e h1 hf (W : string → Prop),
    createError table createError_obj args (State h adv)
    = Ok (VRef e) (State hf (adv ++ advisories_of (v_status vs)))
    ∧ obtained h0 vs status K e h1
    ∧ same_but e (λ k, written k ∨ W k) h1 hf
    ∧ (∀ k, W k →
         k ≠ "status" ∧ k ≠ "statusCode"
         ∧ ∃ p, VRef p ∈ args ∧ plain h (VRef p) ∧ v_props vs = VRef p
                ∧ k ∈ forin_keys h (VRef p))
    ∧ get hf e "status" = VNum status
    ∧ (generic_of h1 e status K = true →
         get hf e "statusCode" = VNum status
         ∧ (¬ W "expose" → get hf e "expose" = VBool (status <? 500)%Z))
    ∧ (generic_of h1 e status K = false → same_but e W h1 hf).
Proof.
  intros Hpop Hargs Hvs h0 status K.
  destruct (createError_run _ h adv args vs Hpop Hargs Hvs)
    as (e & h1 & hf & Hrun & Hobt & Hsame & _).
  fold h0 status K in Hobt, Hsame.
  set (W := copied (forin_keys (normalised h1 e status K) (v_props vs))) in *.
  exists e, h1, hf, W. split_and!; [done|done| | | | |].
  - unfold normalised in Hsame. destruct (generic_of h1 e status K).
    + eapply same_but_trans.
      * eapply same_but_weaken; [|apply (added_same_but e status h1)].
        intros k ?. by left.
      * eapply same_but_weaken; [|exact Hsame]. intros k ?. by right.
    + eapply same_but_weaken; [|exact Hsame]. intros k ?. by right.
  - intros k (Hin & Hk1 & Hk2). split_and!; [done..|].
    destruct (props_keys_of_args _ _ _ _ _ _ _ _ Hpop Hargs Hvs Hobt)
      as [Hnil|(p & Hp & Hplain & Hprops & Hkeys)].
    + rewrite Hnil in Hin. by apply elem_of_nil in Hin.
    + exists p. by rewrite <- Hkeys.
  - by apply (build_status _ _ _ _ _ _ _ Hobt Hsame).
  - intros Hgen. unfold normalised in Hsame. rewrite Hgen in Hsame.
    pose proof (obtained_is_Some _ _ _ _ _ _ Hobt) as He.
    destruct (added_fields e status h1 He) as (_ & Hcode & Hexpose).
    split.
    + rewrite (same_but_get _ _ _ _ _ _ Hsame); [done|].
      by intros (_ & _ & ?).
    + intros Hnot. by rewrite (same_but_get _ _ _ _ _ _ Hsame).
  - intros Hgen. unfold normalised in Hsame. by rewrite Hgen in Hsame.
Qed.

(** ** The predicate *)

(** Lines 107-123, the closure over the marker that line 305 creates.
    Given [createError.HttpError], the predicate never throws and changes
    nothing; it answers [false] for [null], [undefined] and every value
    that is no object, and for an object it answers [true] exactly when
    the object is an instance of the marker, or inherits from
    [Error.prototype] and has a boolean [expose], a numeric [statusCode]
    and a [status] strictly equal to its [statusCode]. *)
Theorem isHttpError_of_marker s val :
  loaded_in s →
  isHttpError (VRef HttpError_obj) val s
  = Ok (negb (nullish val)
        && String.eqb (typeof (st_heap s) val) "object"
        && (match val with
            | VRef l => has_ancestor (st_heap s) l HttpError_prototype
            | _ => false
            end
            || is_error (st_heap s) val
               && String.eqb (typeof (st_heap s) (get_v (st_heap s) val "expose"))
                    "boolean"
               && String.eqb
                    (typeof (st_heap s) (get_v (st_heap s) val "statusCode"))
                    "number"
               && strict_eq (get_v (st_heap s) val "status")
                    (get_v (st_heap s) val "statusCode")))
       s.
Proof.
  intros Hbase%loaded_in_populated%pop_base. destruct s as [h adv]. simpl in *.
  unfold isHttpError. simpl.
  destruct (nullish val) eqn:Hnull; [done|]. simpl.
  destruct (String.eqb (typeof h val) "object") eqn:Htype; [|done]. simpl.
  unfold bind, instanceof. simpl.
  rewrite (base_HttpError _ Hbase). simpl.
  destruct val as [| | | | | | |l]; try done.
  rewrite (base_HttpError_prototype_read _ Hbase).
  by destruct (has_ancestor h l HttpError_prototype).
Qed.


(** ** The registry *)

(** Lines 192-213.  The registry has a constructor under the numeral of
    a status exactly when the status is a code of the table whose class
    is 400 or 500: the [switch] has no other case, and no other key of
    [createError] is a numeral. *)
Theorem registry_holds_kinds_only s n :
  loaded_in s → names_not_numerals →
  get (st_heap s) createError_obj (String_ n) ≠ VUndefined
  ↔ n ∈ statuses_codes table ∧ (codeClass n = 400%Z ∨ codeClass n = 500%Z).
Proof.
  intros Hpop%loaded_in_populated Hnames.
  pose proof (pop_code _ _ Hpop Hnames n) as Hcode.
  assert (has_kind n = true
          ↔ n ∈ statuses_codes table
            ∧ (codeClass n = 400%Z ∨ codeClass n = 500%Z)) as <-.
  { unfold has_kind.
    rewrite andb_true_iff, orb_true_iff, bool_decide_eq_true, !Z.eqb_eq. done. }
  destruct (has_kind n) eqn:Hkind; simpl in Hcode.
  - rewrite bool_decide_true in Hcode by (by apply has_kind_known).
    destruct Hcode as (f & ? & -> & _). done.
  - rewrite Hcode. split; [done|discriminate].
Qed.

(** Lines 59-101, 129-171 and 178-185.  The constructor registered for
    a code is a function whose [name] is the class name ([nameFunc]),
    whose [super_] is the abstract constructor ([inherits]), and whose
    [prototype] points back to it with [constructor], carries [status],
    [statusCode] and [expose] ([true] for the class 400), and inherits
    from [HttpError.prototype] and from [Error.prototype]. *)
Theorem constructor_shape s c :
  loaded_in s → names_not_numerals → has_kind c = true →
  let h := st_heap s in
  ∃ f phrase,
    get h createError_obj (String_ c) = VRef f
    ∧ phrase_in table c = Some phrase
    ∧ typeof h (VRef f) = "function"
    ∧ get h f "name" = VStr (toClassName (toIdentifier phrase))
    ∧ get h f "super_" = VRef HttpError_obj
    ∧ ∃ p,
        get h f "prototype" = VRef p
        ∧ get h p "constructor" = VRef f
        ∧ get h p "status" = VNum c
        ∧ get h p "statusCode" = VNum c
        ∧ get h p "expose" = VBool (codeClass c =? 400)%Z
        ∧ has_ancestor h p HttpError_prototype = true
        ∧ has_ancestor h p ErrorPrototype = true.
Proof.
  intros Hpop%loaded_in_populated Hnames Hkind h.
  pose proof (pop_code _ _ Hpop Hnames c) as Hcode.
  rewrite Hkind, bool_decide_true in Hcode by (by apply has_kind_known).
  simpl in Hcode.
  destruct (get (st_heap s) createError_obj (String_ c)) as [| | | | | | |f]
    eqn:Hget; try (by destruct Hcode as (? & ? & ? & _)).
  pose proof (is_kind_chain _ _ _ (pop_base _ _ Hpop) Hcode) as Hchain.
  destruct (is_kind_fields _ _ _ Hcode) as (Hs & Hsc & He).
  pose proof (is_kind_prototype _ _ _ Hcode) as Hproto.
  destruct Hcode as (f' & phrase & [= <-] & Hf & Hphrase & Hclass & HF & HP).
  exists f, phrase. fold h in Hget, HF, HP, Hchain, Hs, Hsc, He, Hproto.
  split_and!; [done..| | | |].
  - unfold typeof. rewrite HF. simpl. by destruct (codeClass c =? 400)%Z.
  - rewrite get_unfold, HF. done.
  - rewrite get_unfold, HF. done.
  - exists (S f). split_and!; [done| |done..| |].
    + rewrite get_unfold, HP. done.
    + unfold has_ancestor. rewrite Hchain. done.
    + unfold has_ancestor. rewrite Hchain. done.
Qed.

(** The round trip that the test of the README relies on: the
    constructor stored under the identifier of a code has that code as
    the [statusCode] of its prototype, and the registry holds the same
    constructor under the numeral of the code. *)
Theorem registry_round_trip s c phrase :
  loaded_in s → names_not_numerals → names_distinct →
  has_kind c = true → phrase_in table c = Some phrase →
  let h := st_heap s in
  ∃ f p,
    get h createError_obj (toIdentifier phrase) = VRef f
    ∧ get h f "prototype" = VRef p
    ∧ get h p "statusCode" = VNum c
    ∧ get h createError_obj (String_ c) = VRef f.
Proof.
  intros Hpop%loaded_in_populated Hnames Hdistinct Hkind Hphrase h.
  pose proof (pop_code _ _ Hpop Hnames c) as Hcode.
  rewrite Hkind, bool_decide_true in Hcode by (by apply has_kind_known).
  simpl in Hcode.
  pose proof (pop_name _ _ Hpop Hnames Hdistinct c phrase Hkind
                (has_kind_known _ Hkind) Hphrase) as Hname.
  fold h in Hcode, Hname.
  destruct (get h createError_obj (String_ c)) as [| | | | | | |f]
    eqn:Hget; try (by destruct Hcode as (? & ? & ? & _)).
  destruct (is_kind_fields _ _ _ Hcode) as (_ & Hsc & _).
  exists f, (S f). split_and!; [done| |done..].
  by apply (is_kind_prototype _ _ c).
Qed.

(** ** Errors built by the constructors of the kinds *)

Lemma chain_first h o tl :
  chain (h ++ o :: tl) (List.length h)
  = List.length h ::
    match o_proto o with
    | Some q => if decide (q < List.length h) then chain h q else []
    | None => []
    end.
Proof.
  rewrite <- (Nat.add_0_r (List.length h)) at 1. rewrite chain_tail. simpl.
  f_equal; [lia|]. destruct (o_proto o) as [q|]; [|done].
  destruct (decide (q < List.length h)); [done|].
  by rewrite decide_False by lia.
Qed.

Lemma kind_error_chain h f code className m tl :
  base_ok h → is_kind h (VRef f) code →
  chain (h ++ kind_error f className m :: tl) (List.length h)
  = [List.length h; S f; HttpError_prototype; ErrorPrototype; ObjectPrototype].
Proof.
  intros Hbase Hkind. rewrite chain_first. cbn [o_proto kind_error].
  rewrite decide_True by (by eapply is_kind_bound).
  by rewrite (is_kind_chain _ _ _ Hbase Hkind).
Qed.

Lemma kind_error_forin h f code className m :
  base_ok h → is_kind h (VRef f) code →
  forin_keys (h ++ [kind_error f className m]) (VRef (List.length h))
  = ["message"; "status"; "statusCode"; "expose"].
Proof.
  intros Hbase Hkind. unfold forin_keys.
  rewrite (kind_error_chain _ _ _ _ _ _ Hbase Hkind). simpl.
  rewrite props_of_first.
  pose proof (is_kind_bound _ _ _ Hkind) as Hlt.
  pose proof (base_ok_length _ Hbase) as Hlen.
  rewrite !props_of_app
    by (unfold HttpError_prototype, ErrorPrototype, ObjectPrototype; lia).
  destruct Hkind as (f' & phrase & [= <-] & _ & _ & _ & _ & HP).
  unfold props_of.
  rewrite HP, (base_HttpError_prototype _ Hbase), (base_Error _ Hbase),
    (base_Object _ Hbase).
  reflexivity.
Qed.

(** Lines 62-91 and 132-161.  [new createError[c](msg)] returns a new
    object and changes no other: its [message] is [msg], or the reason
    phrase of [c] when [msg] is [null] or [undefined]; its [name] is the
    class name; [status], [statusCode] and [expose] come from the
    prototype; [for-in] visits [message], [status], [statusCode] and
    [expose] ([name] is not enumerable); and the object inherits from
    [Error.prototype].  No advisory is sent. *)
Theorem kind_constructor_builds s c msg :
  loaded_in s → names_not_numerals → has_kind c = true →
  ∃ phrase e s',
    phrase_in table c = Some phrase
    ∧ construct table (get (st_heap s) createError_obj (String_ c)) msg s
      = Ok (VRef e) s'
    ∧ st_heap s !! e = None
    ∧ st_advisories s' = st_advisories s
    ∧ (∀ l o, st_heap s !! l = Some o → st_heap s' !! l = Some o)
    ∧ get (st_heap s') e "message" = (if nullish msg then VStr phrase else msg)
    ∧ get (st_heap s') e "name" = VStr (toClassName (toIdentifier phrase))
    ∧ get (st_heap s') e "status" = VNum c
    ∧ get (st_heap s') e "statusCode" = VNum c
    ∧ get (st_heap s') e "expose" = VBool (codeClass c =? 400)%Z
    ∧ forin_keys (st_heap s') (VRef e)
      = ["message"; "status"; "statusCode"; "expose"]
    ∧ is_error (st_heap s') (VRef e) = true.
Proof.
  intros Hpop%loaded_in_populated Hnames Hkind. destruct s as [h adv].
  simpl in *.
  pose proof (pop_code _ _ Hpop Hnames c) as Hcode.
  rewrite Hkind, bool_decide_true in Hcode by (by apply has_kind_known).
  simpl in Hcode.
  destruct (get h createError_obj (String_ c)) as [| | | | | | |f]
    eqn:Hget; try (by destruct Hcode as (? & ? & ? & _)).
  destruct (construct_kind_run h adv f c msg Hcode) as (phrase & Hphrase & Hrun).
  destruct (is_kind_fields _ _ _ Hcode) as (Hs & Hsc & He).
  exists phrase, (List.length h). eexists.
  pose proof (pop_base _ _ Hpop) as Hbase.
  split_and!; [done|exact Hrun|..]; cbn [st_heap st_advisories].
  - apply lookup_ge_None. lia.
  - done.
  - intros l o Ho. by apply lookup_app_l_Some.
  - rewrite get_first. simpl. by destruct (nullish msg).
  - by rewrite get_first.
  - by rewrite (kind_error_get _ _ _ _ _ _ Hcode).
  - by rewrite (kind_error_get _ _ _ _ _ _ Hcode).
  - by rewrite (kind_error_get _ _ _ _ _ _ Hcode).
  - by apply (kind_error_forin _ _ c).
  - unfold is_error, has_ancestor. rewrite (kind_error_chain _ _ c) by done.
    apply bool_decide_eq_true. simpl. rewrite !elem_of_cons. tauto.
Qed.

(** ** The kind of the value that [createError] returns *)







(** ** What a call leaves alone *)

Lemma createError_returns s args r s' :
  loaded_in s → Forall (closed (st_heap s)) args →
  createError table createError_obj args s = Ok r s' →
  ∃ vs, resolve_args (st_heap s) 0 args (first_vars (st_heap s)) = inr vs.
Proof.
  intros _ Hargs Hrun. destruct s as [h adv]. simpl in *.
  destruct (resolve_args h 0 args (first_vars h)) as [ex|vs] eqn:Hvs;
    [|by exists vs].
  by rewrite (createError_throws h adv args ex Hargs Hvs) in Hrun.
Qed.

Lemma obtained_new h vs status K e h1 :
  obtained h vs status K e h1 → v_err vs = VUndefined →
  e = List.length h ∧ ∃ o, h1 = h ++ [o].
Proof.
  intros Hobt Hu. inversion Hobt; subst; [congruence|eauto..].
Qed.

Lemma obtained_adopted_inv h vs status K e h1 e0 :
  obtained h vs status K e h1 → v_err vs = VRef e0 → e = e0 ∧ h1 = h.
Proof.
  intros Hobt Hu. inversion Hobt; subst; [|congruence..].
  split; [congruence|done].
Qed.

(** A call of [createError] changes no object but the one it returns:
    the registry, the prototypes and the object arguments read as before.
    The value returned is an error value among the arguments, or an
    object that did not exist before the call. *)
Theorem createError_changes_result_only s args r s' :
  loaded_in s → Forall (closed (st_heap s)) args →
  createError table createError_obj args s = Ok r s' →
  (∀ l o, st_heap s !! l = Some o → r ≠ VRef l → st_heap s' !! l = Some o)
  ∧ ((r ∈ args ∧ error_value (st_heap s) r)
     ∨ ∃ e, r = VRef e ∧ st_heap s !! e = None).
Proof.
  intros Hloaded Hargs Hrun.
  destruct (createError_returns _ _ _ _ Hloaded Hargs Hrun) as [vs Hvs].
  apply loaded_in_populated in Hloaded as Hpop.
  destruct s as [h adv]. simpl in *.
  destruct (createError_result _ h adv args vs Hpop Hargs Hvs)
    as (e & h1 & hf & W & Hrun' & Hobt & Hsame & _).
  rewrite Hrun in Hrun'. injection Hrun' as -> ->. simpl.
  destruct (obtained_extends _ _ _ _ _ _ Hobt) as [ext ->].
  split.
  - intros l o Ho Hne.
    rewrite (same_but_lookup_ne _ _ _ _ _ Hsame) by congruence.
    by do 2 apply lookup_app_l_Some.
  - destruct (resolve_args_err_value _ _ _ _ _ Hvs) as [Hu|[Hin Hev]];
      simpl in *.
    + right. exists e. split; [done|].
      destruct (obtained_new _ _ _ _ _ _ Hobt Hu) as [-> _].
      apply lookup_ge_None. rewrite length_app. lia.
    + left. destruct (error_value_ref _ _ Hev) as (e0 & Heq & _).
      destruct (obtained_adopted_inv _ _ _ _ _ _ _ Hobt Heq) as [-> _].
      by rewrite <- Heq.
Qed.


(** ** The value that [createError] returns is an HTTP error *)






(** ** Statuses without a constructor *)


(** ** Calling [createError] on its own result *)




End Registry.

(** * The module on the reference instance *)

Module Run.

Import Sample.

Lemma loaded_ready : loaded_in table toIdentifier ready.
Proof. exists ready, []. split; by vm_compute. Qed.

Lemma loaded_with_objects objs :
  loaded_in table toIdentifier (with_objects objs).
Proof. exists ready, objs. split; [by vm_compute|done]. Qed.

Lemma createError_is : createError_ = createError_obj.
Proof. by vm_compute. Qed.

Lemma has_kind_cases code :
  has_kind table code = true →
  code ∈ filter (λ c, has_kind table c = true) (statuses_codes table).
Proof.
  intros Hk. apply list_elem_of_filter. split; [done|].
  by apply has_kind_known.
Qed.

Lemma names_not_numerals_sample : names_not_numerals table toIdentifier.
Proof.
  intros code phrase Hk%has_kind_cases Hphrase.
  vm_compute in Hk.
  repeat (apply elem_of_cons in Hk as [->|Hk];
          [vm_compute in Hphrase; injection Hphrase as <-; by vm_compute|]).
  by apply elem_of_nil in Hk.
Qed.

Lemma names_distinct_sample : names_distinct table toIdentifier.
Proof.
  intros c c' p p' Hk%has_kind_cases Hk'%has_kind_cases Hp Hp' Heq.
  assert (toIdentifier <$> phrase_in table c
          = toIdentifier <$> phrase_in table c') as Hsame
    by (rewrite Hp, Hp'; simpl; by rewrite Heq).
  clear Hp Hp' Heq.
  assert (Forall (λ c, Forall (λ c',
            toIdentifier <$> phrase_in table c
            = toIdentifier <$> phrase_in table c' → c = c')
            (filter (λ c, has_kind table c = true) (statuses_codes table)))
            (filter (λ c, has_kind table c = true) (statuses_codes table)))
    as Hall.
  { apply (bool_decide_unpack _). by vm_compute. }
  rewrite Forall_forall in Hall. specialize (Hall c Hk).
  rewrite Forall_forall in Hall. by apply Hall.
Qed.

Ltac evaluate := apply (bool_decide_unpack _); by vm_compute.

(** The arguments of a call are values of the state. *)
Ltac closed_values :=
  repeat (apply Forall_cons; split; [vm_compute; first [exact I|lia]|]);
  by apply Forall_nil.

(** ** C1 *)

Lemma createError_known_status_witness :
  (404 ∈ statuses_codes table ∧ (400 ≤ 404 ≤ 599))%Z
  ∧ ∃ r s',
      createError table createError_obj [VNum 404] ready = Ok (VRef r) s'
      ∧ get (st_heap s') r "status" = VNum 404
      ∧ get (st_heap s') r "statusCode" = VNum 404
      ∧ get (st_heap s') r "expose" = VBool (404 <? 500)%Z.
Proof.
  split; [split; [evaluate|lia]|].
  apply (createError_known_status table toIdentifier ready 404).
  - exists ready, []. split; by vm_compute.
  - evaluate.
  - lia.
Defined.

(** ** C2: the predicate as the module wires it

    Line 306 passes [module.exports.HttpError] to
    [createIsHttpErrorFunction].  Nothing has assigned that property
    (line 305 sets [createError.HttpError], and [export default] sets
    [default]), so the closure captures [undefined], and line 113
    evaluates [val instanceof undefined] for every object. *)

(** C2.  [createError.isHttpError(createError(403))] does not return
    [true]: it throws the TypeError of [instanceof], as it does for a
    plain [new Error('plain')]; only for values that are no objects does
    the predicate return, with [false]. *)
Theorem isHttpError_throws_on_objects :
  then_test (call ready [VNum 403])
  = Throw (TypeError "Right-hand side of 'instanceof' is not callable")
  ∧ test (with_objects [native_error (VStr "plain")]) (VRef 93)
    = Throw (TypeError "Right-hand side of 'instanceof' is not callable")
  ∧ test ready VNull = Ok false ready
  ∧ test ready VUndefined = Ok false ready
  ∧ test ready (VNum 403) = Ok false ready.
Proof. split_and!; by vm_compute. Qed.

(** The closure itself is right: with the marker that line 305 creates,
    it accepts what the factory returns and rejects a plain error and an
    object that only looks like one. *)
Lemma isHttpError_with_marker :
  (∃ v s, call ready [VNum 403] = Ok v s
            ∧ isHttpError (VRef HttpError_obj) v s = Ok true s)
  ∧ (let s := with_objects [native_error (VStr "plain")] in
     isHttpError (VRef HttpError_obj) (VRef 93) s = Ok false s)
  ∧ (let s := with_objects
                [literal [("status", VNum 400); ("statusCode", VNum 400);
                          ("expose", VBool true)]] in
     isHttpError (VRef HttpError_obj) (VRef 93) s = Ok false s).
Proof.
  split_and!; [|by vm_compute..].
  destruct (call ready [VNum 403]) as [v s| |] eqn:Hcall; [|by vm_compute in Hcall..].
  exists v, s. split; [done|]. revert Hcall. vm_compute. by intros [= <- <-].
Qed.

(** ** C3 *)



(** ** C4 *)



(** ** C5 *)



(** ** C6 *)



(** ** C7 *)


(** ** C8 *)

(** [createError(499)]: the resolved status 499 has no reason phrase;
    the message is the phrase of the code 400. *)
Lemma createError_499_message :
  statuses_message table 499 = VUndefined
  ∧ field (call ready [VNum 499]) "status" = Some (VNum 499)
  ∧ field (call ready [VNum 499]) "message" = Some (VStr "Bad Request").
Proof. split_and!; by vm_compute. Qed.

(** [createError(404, 'custom', {message: 'other'})]: the object argument
    replaces the message. *)
Example createError_message_overridden :
  let s := with_objects [literal [("message", VStr "other")]] in
  field (call s [VNum 404; VStr "custom"; VRef 93]) "message"
  = Some (VStr "other").
Proof. by vm_compute. Qed.

Lemma createError_message_witness :
  ∃ r s',
    createError table createError_obj [VNum 404; VStr "custom"] ready
    = Ok (VRef r) s'
    ∧ get (st_heap s') r "message" = VStr "custom".
Proof.
  destruct (createError_message table toIdentifier ready
              [VNum 404; VStr "custom"]
              (Vars VUndefined (VStr "custom") (VNum 404) (VRef 93)))
    as (r & s' & Hrun & _ & Hmessage).
  - exists ready, []. split; by vm_compute.
  - apply names_not_numerals_sample.
  - closed_values.
  - by vm_compute.
  - done.
  - evaluate.
  - left. evaluate.
  - exists r, s'. split; [exact Hrun|]. exact Hmessage.
Defined.

(** [createError()] and [createError(404)]. *)
Example createError_no_arguments :
  field (call ready []) "status" = Some (VNum 500)
  ∧ field (call ready []) "expose" = Some (VBool false)
  ∧ field (call ready []) "message" = Some (statuses_message table 500)
  ∧ field (call ready [VNum 404]) "message" = Some (VStr "Not Found").
Proof. split_and!; by vm_compute. Qed.

(** ** C9 *)


(** ** C10 *)


(** ** Further properties, on the reference instance *)

Lemma names_unreserved_sample : names_unreserved table toIdentifier.
Proof.
  intros code phrase Hk%has_kind_cases Hphrase.
  vm_compute in Hk.
  repeat (apply elem_of_cons in Hk as [->|Hk];
          [vm_compute in Hphrase; injection Hphrase as <-; by vm_compute|]).
  by apply elem_of_nil in Hk.
Qed.


Lemma module_body_wired_witness :
  ∃ h,
    module_body table toIdentifier host_state = Ok createError_obj (State h [])
    ∧ get h module_exports "default" = VRef createError_obj
    ∧ get h createError_obj "HttpError" = VRef HttpError_obj.
Proof.
  destruct (module_body_wired table toIdentifier names_unreserved_sample)
    as (h & Hrun & Hdefault & _ & Hmarker & _).
  exists h. split_and!; [exact Hrun|exact Hdefault|exact Hmarker].
Defined.

Lemma HttpError_is_abstract_witness :
  construct table (get (st_heap ready) createError_obj "HttpError")
    (VStr "abstract") ready
  = Throw (TypeError "cannot construct abstract class").
Proof.
  apply (HttpError_is_abstract table toIdentifier ready (VStr "abstract")).
  - exists ready, []. split; by vm_compute.
  - apply names_unreserved_sample.
Defined.

Lemma kind_constructor_builds_witness :
  ∃ e s',
    construct table (get (st_heap ready) createError_obj (String_ 404))
      (VStr "gone") ready = Ok (VRef e) s'
    ∧ get (st_heap s') e "message" = VStr "gone"
    ∧ get (st_heap s') e "name" = VStr "NotFoundError"
    ∧ get (st_heap s') e "status" = VNum 404
    ∧ forin_keys (st_heap s') (VRef e)
      = ["message"; "status"; "statusCode"; "expose"].
Proof.
  destruct (kind_constructor_builds table toIdentifier ready 404 (VStr "gone"))
    as (phrase & e & s' & Hphrase & Hrun & _ & _ & _ & Hmessage & Hname
        & Hstatus & _ & _ & Hkeys & _).
  - exists ready, []. split; by vm_compute.
  - apply names_not_numerals_sample.
  - by vm_compute.
  - vm_compute in Hphrase. injection Hphrase as <-.
    exists e, s'. split_and!; [exact Hrun|exact Hmessage|exact Hname
                             |exact Hstatus|exact Hkeys].
Defined.

Lemma constructor_shape_witness :
  ∃ f,
    get (st_heap ready) createError_obj (String_ 404) = VRef f
    ∧ get (st_heap ready) f "name" = VStr "NotFoundError"
    ∧ get (st_heap ready) f "super_" = VRef HttpError_obj.
Proof.
  destruct (constructor_shape table toIdentifier ready 404)
    as (f & phrase & Hget & Hphrase & _ & Hname & Hsuper & _).
  - exists ready, []. split; by vm_compute.
  - apply names_not_numerals_sample.
  - by vm_compute.
  - vm_compute in Hphrase. injection Hphrase as <-.
    exists f. split_and!; [exact Hget|exact Hname|exact Hsuper].
Defined.

Lemma registry_holds_kinds_only_witness :
  get (st_heap ready) createError_obj (String_ 404) ≠ VUndefined
  ∧ ¬ get (st_heap ready) createError_obj (String_ 302) ≠ VUndefined.
Proof.
  split.
  - apply (registry_holds_kinds_only table toIdentifier ready 404).
    + exists ready, []. split; by vm_compute.
    + apply names_not_numerals_sample.
    + split; [evaluate|left; by vm_compute].
  - intros Hset.
    apply (registry_holds_kinds_only table toIdentifier ready 302) in Hset
      as [_ [Hclass|Hclass]]; [by vm_compute in Hclass..| |].
    + exists ready, []. split; by vm_compute.
    + apply names_not_numerals_sample.
Defined.

Lemma registry_round_trip_witness :
  ∃ f p,
    get (st_heap ready) createError_obj "NotFound" = VRef f
    ∧ get (st_heap ready) f "prototype" = VRef p
    ∧ get (st_heap ready) p "statusCode" = VNum 404
    ∧ get (st_heap ready) createError_obj (String_ 404) = VRef f.
Proof.
  apply (registry_round_trip table toIdentifier ready 404 "Not Found").
  - exists ready, []. split; by vm_compute.
  - apply names_not_numerals_sample.
  - apply names_distinct_sample.
  - by vm_compute.
  - by vm_compute.
Defined.


Lemma isHttpError_of_marker_witness :
  let s := with_objects [native_error (VStr "plain")] in
  isHttpError (VRef HttpError_obj) (VRef 93) s = Ok false s.
Proof.
  intros s.
  rewrite (isHttpError_of_marker table toIdentifier s (VRef 93)).
  - f_equal.
  - exists ready, [native_error (VStr "plain")]. split; [by vm_compute|done].
Defined.



Lemma createError_changes_result_only_witness :
  let s := with_objects [literal [("a", VNum 1)]] in
  match createError table createError_obj [VNum 404; VRef 93] s with
  | Ok r s' => st_heap s' !! 93 = Some (literal [("a", VNum 1)])
  | _ => False
  end.
Proof.
  intros s.
  destruct (createError table createError_obj [VNum 404; VRef 93] s)
    as [r s'| |] eqn:Hrun; [|by vm_compute in Hrun..].
  destruct (createError_changes_result_only table toIdentifier s
              [VNum 404; VRef 93] r s') as [Hframe _].
  - exists ready, [literal [("a", VNum 1)]]. split; [by vm_compute|done].
  - closed_values.
  - exact Hrun.
  - apply Hframe; [by vm_compute|].
    revert Hrun. vm_compute. by intros [= <- _].
Defined.




End Run.
